(** * gh-release-watcher: a shallow embedding of [main.js]

    The program polls the releases of a list of repositories, compares the
    selected release's version with the one it stored last and posts a
    notification when the version went up.

    Strings are JavaScript strings, that is sequences of UTF-16 code units.
    The regular expressions of the source are kept as syntax trees and run
    by a backtracking matcher that returns the matches in the order in which
    a backtracking engine tries them.  Effects (the store, the log, the
    outgoing requests, thrown errors) are threaded through a small state and
    error monad. *)

From Stdlib Require Import String Ascii DecimalString.
From stdpp Require Import gmap list fin_maps.
From Stdlib Require Import ZArith Lia.

Local Open Scope N_scope.

(** ** JavaScript strings *)

Module JS.

(** A string is the list of its UTF-16 code units. *)
Abbreviation jsstring := (list N).

(** An ASCII literal of the source. *)
Definition lit (s : string) : jsstring :=
  map N_of_ascii (list_ascii_of_string s).

Definition between (lo hi c : N) : bool := (lo <=? c) && (c <=? hi).

Definition is_digit (c : N) : bool := between 48 57 c.
Definition is_upper (c : N) : bool := between 65 90 c.
Definition is_lower (c : N) : bool := between 97 122 c.
Definition is_alnum (c : N) : bool := is_digit c || is_upper c || is_lower c.

(** [\w] *)
Definition is_word (c : N) : bool := is_alnum c || (c =? 95).

(** [\s], and the characters [String.prototype.trim] removes: white space
    and line terminators. *)
Definition is_space (c : N) : bool :=
  between 9 13 c || (c =? 32) || (c =? 160) || (c =? 5760)
  || between 8192 8202 c || (c =? 8232) || (c =? 8233) || (c =? 8239)
  || (c =? 8287) || (c =? 12288) || (c =? 65279).

Definition is_high_surrogate (c : N) : bool := between 55296 56319 c.
Definition is_low_surrogate (c : N) : bool := between 56320 57343 c.

(** [Buffer.byteLength(s, 'utf8')]: a surrogate pair is one code point of
    four bytes, a lone surrogate is encoded as U+FFFD (three bytes). *)
Fixpoint byteLength (s : jsstring) : Z :=
  match s with
  | [] => 0%Z
  | c :: s' =>
      if c <? 128 then (1 + byteLength s')%Z
      else if c <? 2048 then (2 + byteLength s')%Z
      else if is_high_surrogate c then
        match s' with
        | d :: s'' =>
            if is_low_surrogate d then (4 + byteLength s'')%Z
            else (3 + byteLength s')%Z
        | [] => 3%Z
        end
      else (3 + byteLength s')%Z
  end.

(** [s.startsWith(p)] *)
Fixpoint startsWith (p s : jsstring) : bool :=
  match p, s with
  | [], _ => true
  | a :: p', b :: s' => (a =? b) && startsWith p' s'
  | _ :: _, [] => false
  end.

(** [s.trim()] *)
Fixpoint trimStart (s : jsstring) : jsstring :=
  match s with
  | c :: s' => if is_space c then trimStart s' else s
  | [] => []
  end.

Definition trimEnd (s : jsstring) : jsstring := rev (trimStart (rev s)).

Definition trim (s : jsstring) : jsstring := trimEnd (trimStart s).

(** [s.split(sep)] for a separator of one code unit; the result is never
    empty: a string without separator is its own single field. *)
Fixpoint split (sep : N) (s : jsstring) : list jsstring :=
  match s with
  | [] => [[]]
  | c :: s' =>
      if c =? sep then [] :: split sep s'
      else match split sep s' with
           | p :: ps => (c :: p) :: ps
           | [] => [[c]]
           end
  end.

(** [parts.join(sep)] *)
Fixpoint join (sep : jsstring) (parts : list jsstring) : jsstring :=
  match parts with
  | [] => []
  | [p] => p
  | p :: ps => p ++ sep ++ join sep ps
  end.

(** Truthiness of a string: only the empty string is falsy. *)
Definition truthy (s : jsstring) : bool :=
  match s with [] => false | _ :: _ => true end.

End JS.

Import JS.

(** ** Regular expressions *)

Module Regex.

(** The constructs the source's patterns use.  [Group i r] is the [i]-th
    capturing group; a non-capturing group is the regex itself. *)
Inductive regex : Type :=
| Eps
| Class (p : N -> bool)
| Seq (r1 r2 : regex)
| Alt (r1 r2 : regex)
| Plus (r : regex)
| Group (i : nat) (r : regex)
| Bos
| WordBoundary.

Definition Char (c : N) : regex := Class (N.eqb c).

(** A literal run of characters. *)
Fixpoint Str (s : jsstring) : regex :=
  match s with
  | [] => Eps
  | [c] => Char c
  | c :: s' => Seq (Char c) (Str s')
  end.

(** [r?], greedy. *)
Definition Opt (r : regex) : regex := Alt r Eps.

(** A position of the matcher: the code unit before the position (none at
    the start of the input), the input still to read, and the groups
    captured so far (the latest binding first). *)
Record mstate : Type := MState {
  before : option N;
  rest : jsstring;
  caps : list (nat * jsstring)
}.

Definition word_before (st : mstate) : bool :=
  match before st with Some c => is_word c | None => false end.

Definition word_after (st : mstate) : bool :=
  match rest st with c :: _ => is_word c | [] => false end.

(** The text read between position [st] and the later position [st']. *)
Definition consumed (st st' : mstate) : jsstring :=
  take (length (rest st) - length (rest st'))%nat (rest st).

(** Greedy [r+]: after one iteration of [r], first every way to go on
    iterating, then stopping here.  An iteration that reads nothing is not
    repeated.  [n] bounds the number of iterations; [S (length (rest st))]
    is never reached by iterations that each read a code unit. *)
Fixpoint iterate (step : mstate -> list mstate) (n : nat) (st : mstate)
  : list mstate :=
  match n with
  | O => []
  | S n' =>
      flat_map
        (fun st' =>
           (if (length (rest st') <? length (rest st))%nat
            then iterate step n' st' else []) ++ [st'])
        (step st)
  end.

(** All the ways [r] matches at [st], in the order a backtracking matcher
    tries them: the first one is the match. *)
Fixpoint run (r : regex) (st : mstate) : list mstate :=
  match r with
  | Eps => [st]
  | Class p =>
      match rest st with
      | c :: s' => if p c then [MState (Some c) s' (caps st)] else []
      | [] => []
      end
  | Seq r1 r2 => flat_map (run r2) (run r1 st)
  | Alt r1 r2 => run r1 st ++ run r2 st
  | Plus r' => iterate (run r') (S (length (rest st))) st
  | Group i r' =>
      map (fun st' => MState (before st') (rest st')
                             ((i, consumed st st') :: caps st'))
          (run r' st)
  | Bos => match before st with None => [st] | Some _ => [] end
  | WordBoundary => if xorb (word_before st) (word_after st) then [st] else []
  end.

(** The groups of a match; a group that took no part reads as empty. *)
Definition group (cs : list (nat * jsstring)) (i : nat) : jsstring :=
  match find (fun e => Nat.eqb (fst e) i) cs with
  | Some e => snd e
  | None => []
  end.

(** The match of [r] starting exactly at this position: the matched text
    and the captures. *)
Definition exec_at (r : regex) (prev : option N) (s : jsstring)
  : option (jsstring * list (nat * jsstring)) :=
  match run r (MState prev s []) with
  | st' :: _ => Some (take (length s - length (rest st'))%nat s, caps st')
  | [] => None
  end.

(** [s.match(r)] for a pattern without the [g] flag: the leftmost match. *)
Fixpoint search (r : regex) (prev : option N) (s : jsstring)
  : option (jsstring * list (nat * jsstring)) :=
  match exec_at r prev s with
  | Some m => Some m
  | None =>
      match s with
      | [] => None
      | c :: s' => search r (Some c) s'
      end
  end.

(** [s.replace(r, f)] for a pattern with the [g] flag: every match, from
    left to right and without overlap, is replaced by what the callback
    returns.  [skip] counts the code units of the current match that are
    still to be passed over; after an empty match the next code unit is
    copied. *)
Fixpoint replace_from (r : regex)
    (f : jsstring -> list (nat * jsstring) -> jsstring)
    (prev : option N) (s : jsstring) (skip : nat) : jsstring :=
  match skip with
  | S k =>
      match s with
      | [] => []
      | c :: s' => replace_from r f (Some c) s' k
      end
  | O =>
      match exec_at r prev s with
      | Some (m, cs) =>
          f m cs ++
          match s with
          | [] => []
          | c :: s' =>
              match length m with
              | O => c :: replace_from r f (Some c) s' O
              | S k => replace_from r f (Some c) s' k
              end
          end
      | None =>
          match s with
          | [] => []
          | c :: s' => c :: replace_from r f (Some c) s' O
          end
      end
  end.

Definition replace (r : regex)
    (f : jsstring -> list (nat * jsstring) -> jsstring) (s : jsstring)
  : jsstring :=
  replace_from r f None s O.

End Regex.

Import Regex.

(** ** Pure helpers of [main.js] *)

Definition digits : regex := Plus (Class is_digit).

(** [\d+(?:\.\d+)+] *)
Definition dotted : regex :=
  Seq digits (Plus (Seq (Char 46) digits)).

(** [/(\d+(?:\.\d+)+)/] *)
Definition version_re : regex := Group 1 dotted.

Definition sanitizeVersion (version : jsstring) : jsstring :=
  match search version_re None version with
  | Some (m, _) => lit "v" ++ m
  | None => lit ""
  end.

(** [[\w.-]] *)
Definition is_name_char (c : N) : bool := is_word c || (c =? 46) || (c =? 45).

(** [[a-zA-Z0-9-]] *)
Definition is_user_char (c : N) : bool := is_alnum c || (c =? 45).

(** [/https:\/\/github\.com\/([\w.-]+)\/([\w.-]+)\/(issues|pull)\/(\d+)/g] *)
Definition issue_re : regex :=
  Seq (Str (lit "https://github.com/"))
 (Seq (Group 1 (Plus (Class is_name_char)))
 (Seq (Char 47)
 (Seq (Group 2 (Plus (Class is_name_char)))
 (Seq (Char 47)
 (Seq (Group 3 (Alt (Str (lit "issues")) (Str (lit "pull"))))
 (Seq (Char 47)
      (Group 4 digits))))))).

(** [/(^|\s)@([a-zA-Z0-9-]+)\b/g] *)
Definition mention_re : regex :=
  Seq (Group 1 (Alt Bos (Class is_space)))
 (Seq (Char 64)
 (Seq (Group 2 (Plus (Class is_user_char)))
      WordBoundary)).

(** [v?\d+(?:\.\d+)+] *)
Definition ver_re : regex := Seq (Opt (Char 118)) dotted.

(** [/https:\/\/github\.com\/([\w.-]+\/[\w.-]+)\/compare\/(v?\d+(?:\.\d+)+)\.\.\.(v?\d+(?:\.\d+)+)/g] *)
Definition compare_re : regex :=
  Seq (Str (lit "https://github.com/"))
 (Seq (Group 1 (Seq (Plus (Class is_name_char))
               (Seq (Char 47) (Plus (Class is_name_char)))))
 (Seq (Str (lit "/compare/"))
 (Seq (Group 2 ver_re)
 (Seq (Str (lit "..."))
      (Group 3 ver_re))))).

(** The three link rewritings of [githubMarkdown], in the order of the
    source. *)
Definition rewriteIssues (text : jsstring) : jsstring :=
  replace issue_re
    (fun _ cs =>
       let owner := group cs 1 in
       let repo := group cs 2 in
       let type := group cs 3 in
       let num := group cs 4 in
       lit "[#" ++ num ++ lit "](https://github.com/" ++ owner ++ lit "/"
         ++ repo ++ lit "/" ++ type ++ lit "/" ++ num ++ lit ")")
    text.

Definition rewriteMentions (text : jsstring) : jsstring :=
  replace mention_re
    (fun _ cs =>
       let prefix := group cs 1 in
       let username := group cs 2 in
       lit "[" ++ prefix ++ lit "@" ++ username
         ++ lit "](https://github.com/" ++ username ++ lit ")")
    text.

Definition rewriteCompare (text : jsstring) : jsstring :=
  replace compare_re
    (fun m cs =>
       let fromVer := group cs 2 in
       let toVer := group cs 3 in
       lit "[" ++ fromVer ++ lit "..." ++ toVer ++ lit "](" ++ m ++ lit ")")
    text.

Definition str_of_bool (b : bool) : jsstring :=
  if b then lit "true" else lit "false".

(** A number in a template literal. *)
Definition str_of_nat (n : nat) : jsstring :=
  lit (NilEmpty.string_of_uint (Nat.to_uint n)).

(** [loadRepoLines], on the text of the file. *)
Definition repoLines (content : jsstring) : list jsstring :=
  filter (fun line => (0 < length line)%nat) (map trim (split 10 content)).

(** ** What the program takes from its libraries and runtime

    [node-emoji], [compare-versions], [ms] and the built-in case and date
    conversions are not part of the repository: the development is
    parameterised by them. *)

Inductive MsResult : Type :=
| MsNumber (d : Z)      (* a duration in milliseconds *)
| MsUndefined           (* a string [ms] does not understand *)
| MsThrows.             (* the empty string *)

Class Libs : Type := {
  (** [emojify] of [node-emoji] *)
  emojify : jsstring -> jsstring;
  (** [validate] of [compare-versions] *)
  validate : jsstring -> bool;
  (** [compareVersions] of [compare-versions]: [-1], [0] or [1]; it throws
      (no result) on what it cannot parse. *)
  compareVersions : jsstring -> jsstring -> option Z;
  (** [String.prototype.toLowerCase] *)
  toLowerCase : jsstring -> jsstring;
  (** [new Date(s).toLocaleString()] *)
  toLocaleString : jsstring -> jsstring;
  (** [ms] *)
  ms : jsstring -> MsResult
}.

(** ** Data *)

(** A release as the hosting API returns it; [name] and [body] may be
    [null]. *)
Record Release : Type := {
  tag_name : jsstring;
  name : option jsstring;
  published_at : jsstring;
  html_url : jsstring;
  body : option jsstring;
  draft : bool;
  prerelease : bool
}.

(** The request [sendNtfy] posts. *)
Record Ntfy : Type := {
  n_url : jsstring;
  n_title : jsstring;
  n_tags : jsstring;
  n_markdown : jsstring;
  n_authorization : jsstring;
  n_body : jsstring
}.

Inductive Exn : Type :=
| TypeError (msg : jsstring)
| AxiosError (status : option Z)   (* no status: there was no response *)
| FsError
| MsError
| VersionError.

Inductive Level : Type := Debug | Info | Error.

(** Modelled from the spec: [logger.js] is not among the sources; a call of
    [log.debug], [log.info] or [log.error] is recorded with its level, its
    text and the error object passed along, if any. *)
Record LogEntry : Type := {
  level : Level;
  text : jsstring;
  cause : option Exn
}.

Inductive Callback : Type := CheckReleases.

(** A timer set by [setTimeout]; the delay is [undefined] when [ms] gave
    none. *)
Record Timer : Type := {
  callback : Callback;
  delay : option Z
}.

(** The answer to [GET /repos/{repo}/releases]. *)
Inductive Response : Type :=
| Releases (rs : list Release)
| Failed (status : option Z).

(** The surroundings of one sweep: the environment variables, and how the
    network and the file system answer. *)
Record Env : Type := {
  NTFY_URL : jsstring;
  NTFY_AUTH : option jsstring;
  CHECK_INTERVAL : jsstring;
  REPO_FILE : jsstring;
  http_get : jsstring -> Response;
  http_post : Ntfy -> option Exn;      (* the failure of the request, if any *)
  read_file : jsstring -> option jsstring
}.

(** What the program changes: [db.data.releases] (written through to the
    file after every update, which is taken to succeed), the log, the
    requests issued, the rejections of promises nobody awaits, and the
    timers set.  The store is a map from repository ids to the strings
    [updateVersion] wrote; the properties a JavaScript object inherits are
    no entries of it.  A rejection in [unhandled] is not harmless: the
    runtime ends the process on it (see [exit_code]), so that what the
    functions below do after it is what the program would do if the
    process were still alive. *)
Record World : Type := {
  db : gmap jsstring jsstring;
  logs : list LogEntry;
  fetched : list jsstring;
  outbox : list Ntfy;
  unhandled : list Exn;
  timers : list Timer
}.

(** The updates of the world. *)
Definition add_log (e : LogEntry) (w : World) : World :=
  {| db := db w; logs := logs w ++ [e]; fetched := fetched w;
     outbox := outbox w; unhandled := unhandled w; timers := timers w |}.

Definition logged (l : Level) (msg : jsstring) (w : World) : World :=
  add_log {| level := l; text := msg; cause := None |} w.

Definition stored (repo version : jsstring) (w : World) : World :=
  {| db := <[repo := version]> (db w); logs := logs w; fetched := fetched w;
     outbox := outbox w; unhandled := unhandled w; timers := timers w |}.

Definition requested (url : jsstring) (w : World) : World :=
  {| db := db w; logs := logs w; fetched := fetched w ++ [url];
     outbox := outbox w; unhandled := unhandled w; timers := timers w |}.

Definition posted (n : Ntfy) (w : World) : World :=
  {| db := db w; logs := logs w; fetched := fetched w;
     outbox := outbox w ++ [n]; unhandled := unhandled w;
     timers := timers w |}.

Definition rejected (e : Exn) (w : World) : World :=
  {| db := db w; logs := logs w; fetched := fetched w; outbox := outbox w;
     unhandled := unhandled w ++ [e]; timers := timers w |}.

Definition scheduled (t : Timer) (w : World) : World :=
  {| db := db w; logs := logs w; fetched := fetched w; outbox := outbox w;
     unhandled := unhandled w; timers := timers w ++ [t] |}.

(** ** The monad of the asynchronous functions *)

Inductive Result (A : Type) : Type :=
| Ok (a : A)
| Throw (e : Exn).
Arguments Ok {A} a.
Arguments Throw {A} e.

Definition M (A : Type) : Type := World -> Result A * World.

#[global] Instance M_ret : MRet M := fun A a w => (Ok a, w).

#[global] Instance M_bind : MBind M := fun A B f m w =>
  match m w with
  | (Ok a, w') => f a w'
  | (Throw e, w') => (Throw e, w')
  end.

Definition throw {A : Type} (e : Exn) : M A := fun w => (Throw e, w).

(** [try { m } catch (err) { h err }], and [promise.catch(h)]. *)
Definition catch {A : Type} (m : M A) (h : Exn -> M A) : M A := fun w =>
  match m w with
  | (Ok a, w') => (Ok a, w')
  | (Throw e, w') => h e w'
  end.

(** A call of an asynchronous function whose promise is dropped: what it
    does up to its first failure happens, its rejection is handled by
    nobody, neither by a [catch] around the call nor by the caller: it is
    left in [unhandled], for the runtime. *)
Definition floating {A : Type} (m : M A) : M unit := fun w =>
  match m w with
  | (Ok _, w') => (Ok tt, w')
  | (Throw e, w') => (Ok tt, rejected e w')
  end.

Definition log (l : Level) (msg : jsstring) (err : option Exn) : M unit :=
  fun w => (Ok tt, add_log {| level := l; text := msg; cause := err |} w).

Definition readDb (repo : jsstring) : M (option jsstring) := fun w =>
  (Ok (db w !! repo), w).

(** [updateVersion] *)
Definition updateVersion (repo version : jsstring) : M unit := fun w =>
  (Ok tt, stored repo version w).

Definition axios_get (env : Env) (url : jsstring) : M (list Release) :=
  fun w =>
    match http_get env url with
    | Releases rs => (Ok rs, requested url w)
    | Failed st => (Throw (AxiosError st), requested url w)
    end.

Definition axios_post (env : Env) (n : Ntfy) : M unit := fun w =>
  match http_post env n with
  | None => (Ok tt, posted n w)
  | Some e => (Throw e, posted n w)
  end.

Definition setTimeout (cb : Callback) (d : option Z) : M unit := fun w =>
  (Ok tt, scheduled {| callback := cb; delay := d |} w).

Definition MAX_MESSAGE_BYTES : Z := 4000.

(** ** The program *)

Section Program.

Context {L : Libs}.

Definition parseLine (line : jsstring) : option jsstring * bool :=
  if startsWith (lit "#") line then (None, false)
  else
    let parts := map (fun part => toLowerCase (trim part)) (split 58 line) in
    let repo := parts !! 0%nat in
    let beta := bool_decide (default (lit "") (parts !! 1%nat) = lit "beta") in
    (repo, beta).

Definition githubMarkdown (text : jsstring) : jsstring :=
  let text := rewriteIssues text in
  let text := rewriteMentions text in
  let text := rewriteCompare text in
  emojify text.

Definition sendNtfy (env : Env) (title tag message : jsstring) : M unit :=
  axios_post env
    {| n_url := NTFY_URL env;
       n_title := title;
       n_tags := tag;
       n_markdown := lit "yes";
       n_authorization :=
         match NTFY_AUTH env with
         | Some auth => if truthy auth then lit "Bearer " ++ auth else lit ""
         | None => lit ""
         end;
       n_body := githubMarkdown message |}.

(** [`https://api.github.com/repos/${repo}/releases`] *)
Definition releases_url (repo : jsstring) : jsstring :=
  lit "https://api.github.com/repos/" ++ repo ++ lit "/releases".

(** [err.response.status]; reading it throws when there is no response. *)
Definition response_status (err : Exn) : option Z :=
  match err with
  | AxiosError st => st
  | _ => None
  end.

(** The result is [undefined] (here [None]) after a 404. *)
Definition fetchReleases (env : Env) (repo : jsstring)
  : M (option (list Release)) :=
  catch
    (releases ← axios_get env (releases_url repo);
     mret (Some releases))
    (fun err =>
       match response_status err with
       | None =>
           throw (TypeError
             (lit "Cannot read properties of undefined (reading 'status')"))
       | Some st =>
           if (st =? 404)%Z then
             log Error (lit "Repository not found: " ++ repo) None;;
             floating (sendNtfy env (lit "Error") (lit "exclamation")
                         (lit "Repository not found: " ++ repo));;
             mret None
           else throw err
       end).

Definition trunkateReleaseBody (body url : jsstring) (maxBytes : Z)
  : M jsstring :=
  if (byteLength body <=? maxBytes)%Z then mret body
  else
    log Debug (lit "Truncating release notes for " ++ url) None;;
    mret (lit "Full release notes: [" ++ url ++ lit "](" ++ url ++ lit ")").

(** The callback of the first [releases.find]. *)
Definition wanted (beta : bool) (release : Release) : bool :=
  if draft release then false
  else if negb beta && prerelease release then false
  else true.

(** The release [processRepoLine] goes on with: lines 140 to 147. *)
Definition latestRelease (releases : list Release) (beta : bool)
  : option Release :=
  match find (wanted beta) releases with
  | Some release => Some release
  | None => find (fun release => negb (draft release)) releases
  end.

(** A value of the store read as a condition: a missing entry and the
    empty string are both falsy. *)
Definition present (v : option jsstring) : option jsstring :=
  match v with
  | Some s => if truthy s then Some s else None
  | None => None
  end.

(** A string or [null] in a template literal. *)
Definition str_of_nullable (v : option jsstring) : jsstring :=
  match v with Some s => s | None => lit "null" end.

(** [repo.split('/')[1]] in a template literal. *)
Definition repo_short (repo : jsstring) : jsstring :=
  default (lit "undefined") (split 47 repo !! 1%nat).

Definition headersOf (repo : jsstring) (release : Release)
    (currentVersion : jsstring) : jsstring :=
  emojify (join (lit (String (ascii_of_nat 10) EmptyString))
    [ lit "**" ++ str_of_nullable (name release) ++ lit "**";
      lit "Repo: [" ++ repo ++ lit "](" ++ html_url release ++ lit ")";
      lit "Version: " ++ currentVersion;
      lit "Published: " ++ toLocaleString (published_at release);
      lit "";
      lit "" ]).

Definition releaseBodyOf (release : Release) : jsstring :=
  match present (body release) with
  | Some b => b
  | None => lit "No release notes."
  end.

(** Lines 170 to 189: the branch of a newer version. *)
Definition announce (env : Env) (repo : jsstring) (release : Release)
    (currentVersion : jsstring) : M unit :=
  log Info (lit "New release found for " ++ repo ++ lit " - repo: " ++ repo)
    None;;
  updateVersion repo currentVersion;;
  let title := lit "New release available for " ++ repo_short repo ++ lit "!" in
  let headers := headersOf repo release currentVersion in
  let maxBodyBytes := (MAX_MESSAGE_BYTES - byteLength headers)%Z in
  shown ← trunkateReleaseBody (emojify (releaseBodyOf release))
            (html_url release) maxBodyBytes;
  let message := headers ++ shown in
  sendNtfy env title (lit "loudspeaker") message.

(** Lines 151 to 196: what happens once a release is selected. *)
Definition track (env : Env) (repo : jsstring) (release : Release) : M unit :=
  let currentVersion := sanitizeVersion (tag_name release) in
  lastVersion ← readDb repo;
  match present lastVersion with
  | None =>
      log Debug (lit "No previous release found for " ++ repo
        ++ lit " in database. creating entry and skipping notification") None;;
      updateVersion repo currentVersion
  | Some lastVersion =>
      if negb (validate lastVersion) || negb (validate currentVersion) then
        log Error (lit "Unable to parse versions for " ++ repo ++ lit ". "
          ++ lastVersion ++ lit " - last version " ++ currentVersion
          ++ lit " - current version") None
      else
        match compareVersions lastVersion currentVersion with
        | None => throw VersionError
        | Some compareResult =>
            if (compareResult =? -1)%Z then
              announce env repo release currentVersion
            else if (compareResult =? 1)%Z then
              log Info (lit "Version downgrade on remote repository " ++ repo
                ++ lit " from " ++ lastVersion ++ lit " to " ++ currentVersion
                ++ lit ". Updating local database to reflect") None;;
              updateVersion repo currentVersion
            else
              log Debug (lit "Found no increase in version from "
                ++ lastVersion ++ lit " to " ++ currentVersion ++ lit " for "
                ++ repo) None
        end
  end.

Definition processRepoLine (env : Env) (line : jsstring) : M unit :=
  let '(repo, beta) := parseLine line in
  match present repo with
  | None => log Debug (lit "Skipping commented repo line: " ++ line) None
  | Some repo =>
      log Debug (lit "Processing " ++ repo ++ lit " - beta: "
        ++ str_of_bool beta) None;;
      releases ← fetchReleases env repo;
      match releases with
      | None =>
          throw (TypeError
            (lit "Cannot read properties of undefined (reading 'find')"))
      | Some releases =>
          match latestRelease releases beta with
          | None =>
              log Info (lit "No release found for " ++ repo ++ lit " - beta: "
                ++ str_of_bool beta) None
          | Some release => track env repo release
          end
      end
  end.

(** [fs.readFileSync] followed by the splitting of [loadRepoLines]. *)
Definition loadRepoLines (env : Env) (file : jsstring) : M (list jsstring) :=
  match read_file env file with
  | Some content => mret (repoLines content)
  | None => throw FsError
  end.

(** One step of the [for] loop of [checkReleases]. *)
Definition guarded (env : Env) (line : jsstring) : M unit :=
  catch (processRepoLine env line)
        (fun err => log Error (lit "Failed to process line " ++ line)
                      (Some err)).

Fixpoint forEach (env : Env) (lines : list jsstring) : M unit :=
  match lines with
  | [] => mret tt
  | line :: lines' => guarded env line;; forEach env lines'
  end.

Definition checkReleases (env : Env) : M unit :=
  catch
    (log Info (lit "Performing release check") None;;
     lines ← loadRepoLines env (REPO_FILE env);
     log Info (lit "Found " ++ str_of_nat (length lines)
       ++ lit " repos to check...") None;;
     forEach env lines)
    (fun err => log Error (lit "") (Some err));;
  match ms (CHECK_INTERVAL env) with
  | MsNumber d => setTimeout CheckReleases (Some d)
  | MsUndefined => setTimeout CheckReleases None
  | MsThrows => throw MsError
  end.

(** The same line in the sweeps of a run, one surrounding per sweep. *)
Fixpoint visits (envs : list Env) (line : jsstring) : M unit :=
  match envs with
  | [] => mret tt
  | env :: envs' => guarded env line;; visits envs' line
  end.

End Program.

(** ** A small instance of the libraries

    Enough of the libraries to run the program on plain inputs: no emoji
    shortcode is known, ASCII letters are lowercased, a version is valid
    when it is its own normal form and two versions are compared by their
    numbers, field by field. *)

Module Plain.

Definition lower_unit (c : N) : N := if is_upper c then c + 32 else c.

Definition number (d : jsstring) : N :=
  fold_left (fun acc c => 10 * acc + (c - 48)) d 0.

Definition fields (v : jsstring) : list N :=
  map number (split 46 (drop 1 v)).

Fixpoint compare_fields (a b : list N) : Z :=
  match a, b with
  | [], _ => if forallb (N.eqb 0) b then 0%Z else (-1)%Z
  | _ :: _, [] => if forallb (N.eqb 0) a then 0%Z else 1%Z
  | x :: a', y :: b' =>
      if x <? y then (-1)%Z
      else if y <? x then 1%Z
      else compare_fields a' b'
  end.

Definition valid (v : jsstring) : bool :=
  truthy v && bool_decide (sanitizeVersion v = v).

Definition libs : Libs := {|
  emojify := fun s => s;
  validate := valid;
  compareVersions := fun a b =>
    if valid a && valid b then Some (compare_fields (fields a) (fields b))
    else None;
  toLowerCase := map lower_unit;
  toLocaleString := fun s => s;
  ms := fun _ => MsNumber 3600000
|}.

Definition world0 : World :=
  {| db := ∅; logs := []; fetched := []; outbox := []; unhandled := [];
     timers := [] |}.

Definition release (tag : string) (notes : jsstring) (d p : bool) : Release :=
  {| tag_name := lit tag;
     name := Some (lit "Widget");
     published_at := lit "2026-01-02";
     html_url := lit "https://github.com/acme/widget/releases/tag/" ++ lit tag;
     body := Some notes;
     draft := d;
     prerelease := p |}.

(** Surroundings in which every repository has the given releases. *)
Definition env_with (answer : Response) : Env :=
  {| NTFY_URL := lit "https://ntfy.example/releases";
     NTFY_AUTH := None;
     CHECK_INTERVAL := lit "1h";
     REPO_FILE := lit "repos.txt";
     http_get := fun _ => answer;
     http_post := fun _ => None;
     read_file := fun _ => Some (lit "acme/widget") |}.

(** A world whose store holds one version for [acme/widget]. *)
Definition world_with (version : string) : World :=
  {| db := {[ lit "acme/widget" := lit version ]}; logs := []; fetched := [];
     outbox := []; unhandled := []; timers := [] |}.

Definition line : jsstring := lit "Acme/Widget".
Definition repo : jsstring := lit "acme/widget".

End Plain.

(** ** Notions of the statements *)

(** [r] is the first element of [l], in the order of [l], that satisfies
    [P]. *)
Definition first_such {A : Type} (P : A -> bool) (l : list A) (r : A) : Prop :=
  exists l1 l2, l = l1 ++ r :: l2 /\ P r = true
                /\ Forall (fun x => P x = false) l1.

(** Not a draft, and not a prerelease unless betas are included. *)
Definition eligible (beta : bool) (r : Release) : bool :=
  negb (draft r) && (negb (prerelease r) || beta).

Definition not_draft (r : Release) : bool := negb (draft r).

(** The replacement of a body that is over the budget. *)
Definition fallback (url : jsstring) : jsstring :=
  lit "Full release notes: [" ++ url ++ lit "](" ++ url ++ lit ")".

(** Does the string start with the second half of a surrogate pair, or end
    with the first half of one? *)
Definition starts_low (s : jsstring) : bool :=
  match s with c :: _ => is_low_surrogate c | [] => false end.

Definition ends_high (s : jsstring) : bool :=
  match last s with Some c => is_high_surrogate c | None => false end.

Definition is_dot (c : N) : bool := 46 =? c.

(** A number: one or more digits. *)
Definition Digits (d : jsstring) : Prop :=
  d <> [] /\ Forall (fun c => is_digit c = true) d.

(** [.N.N...] *)
Definition groups (ds : list jsstring) : jsstring := concat (map (cons 46) ds).

(** A number followed by one or more groups of a dot and a number. *)
Definition Dotted (m : jsstring) : Prop :=
  exists d ds, Digits d /\ ds <> [] /\ Forall Digits ds /\ m = d ++ groups ds.

(** No part of the string is a dotted numeric sequence. *)
Definition NoDotted (s : jsstring) : Prop :=
  forall pre m post, s = pre ++ m ++ post -> ~ Dotted m.

Definition starts_digit (s : jsstring) : bool :=
  match s with c :: _ => is_digit c | [] => false end.

Definition starts_group (s : jsstring) : bool :=
  match s with c :: s' => is_dot c && starts_digit s' | [] => false end.

(** What follows cannot extend a dotted numeric sequence. *)
Definition closed (post : jsstring) : Prop :=
  starts_digit post = false /\ starts_group post = false.

(** Every character is a digit or a dot, and a dot is followed by a digit. *)
Fixpoint dot_ok (s : jsstring) : bool :=
  match s with
  | [] => true
  | c :: s' => (is_digit c || (is_dot c && starts_digit s')) && dot_ok s'
  end.

(** The results of a greedy [p+]: the longest run first. *)
Fixpoint plus_class (p : N -> bool) (b : option N) (s : jsstring)
    (c : list (nat * jsstring)) : list mstate :=
  match s with
  | x :: s' =>
      if p x then plus_class p (Some x) s' c ++ [MState (Some x) s' c] else []
  | [] => []
  end.

Definition dot_digits : regex := Seq (Char 46) digits.

(** Unfolds the operations of the monad and reduces what is decided. *)
Ltac unfold_m :=
  repeat progress
    (unfold mbind, M_bind, mret, M_ret, log, catch, throw, floating, readDb,
       updateVersion, axios_get, axios_post, setTimeout;
     cbv beta iota).

(** The lowercase form of an ASCII letter; other code units are kept. *)
Definition ascii_fold (c : N) : N := if is_upper c then c + 32 else c.

(** Two strings that differ only in the case of their ASCII letters. *)
Definition same_letters (a b : jsstring) : Prop :=
  Forall2 (fun x y => ascii_fold x = ascii_fold y) a b.

(** Decides the comparisons of code units in the goal and the context. *)
Ltac decide_units :=
  repeat match goal with
         | |- context [?a <=? ?b] => destruct (N.leb_spec a b)
         | |- context [?a =? ?b] => destruct (N.eqb_spec a b)
         | H : context [?a <=? ?b] |- _ => destruct (N.leb_spec a b)
         | H : context [?a =? ?b] |- _ => destruct (N.eqb_spec a b)
         end;
  cbn [andb orb negb] in *; try reflexivity; try discriminate; try lia.

Section Notions.

Context {L : Libs}.

Implicit Types (env : Env) (w : World) (repo line : jsstring).

Definition current (release : Release) : jsstring :=
  sanitizeVersion (tag_name release).

(** The world when the selected release is looked up: the line was
    announced in the log and the releases were requested. *)
Definition arrived (repo : jsstring) (beta : bool) (w : World) : World :=
  requested (releases_url repo)
    (logged Debug (lit "Processing " ++ repo ++ lit " - beta: "
                     ++ str_of_bool beta) w).

Definition first_seen_msg (repo : jsstring) : jsstring :=
  lit "No previous release found for " ++ repo
    ++ lit " in database. creating entry and skipping notification".

Definition unparsable_msg (repo lastVersion currentVersion : jsstring)
  : jsstring :=
  lit "Unable to parse versions for " ++ repo ++ lit ". " ++ lastVersion
    ++ lit " - last version " ++ currentVersion ++ lit " - current version".

Definition downgrade_msg (repo lastVersion currentVersion : jsstring)
  : jsstring :=
  lit "Version downgrade on remote repository " ++ repo ++ lit " from "
    ++ lastVersion ++ lit " to " ++ currentVersion
    ++ lit ". Updating local database to reflect".

Definition same_msg (repo lastVersion currentVersion : jsstring) : jsstring :=
  lit "Found no increase in version from " ++ lastVersion ++ lit " to "
    ++ currentVersion ++ lit " for " ++ repo.

(** A line that names a repository. *)
Definition names (line repo : jsstring) (beta : bool) : Prop :=
  parseLine line = (Some repo, beta) /\ truthy repo = true.

(** The hosting API answers with releases of which [release] is selected. *)
Definition offers (env : Env) (repo : jsstring) (beta : bool)
    (release : Release) : Prop :=
  exists releases,
    http_get env (releases_url repo) = Releases releases
    /\ latestRelease releases beta = Some release.

(** Does the body fit in what the headers leave of the budget? *)
Definition fits repo (release : Release) : bool :=
  (byteLength (emojify (releaseBodyOf release))
   <=? MAX_MESSAGE_BYTES
       - byteLength (headersOf repo release (current release)))%Z.

(** The body as it is put after the headers. *)
Definition shown_body repo (release : Release) : jsstring :=
  if fits repo release then emojify (releaseBodyOf release)
  else fallback (html_url release).

(** The notification of a new release, as it is posted. *)
Definition release_ntfy env repo (release : Release) : Ntfy :=
  {| n_url := NTFY_URL env;
     n_title := lit "New release available for " ++ repo_short repo ++ lit "!";
     n_tags := lit "loudspeaker";
     n_markdown := lit "yes";
     n_authorization :=
       match NTFY_AUTH env with
       | Some auth => if truthy auth then lit "Bearer " ++ auth else lit ""
       | None => lit ""
       end;
     n_body := githubMarkdown
                 (headersOf repo release (current release)
                    ++ shown_body repo release) |}.

(** The world when the notification of a new release is posted. *)
Definition before_post repo (release : Release) w : World :=
  let w0 :=
    stored repo (current release)
      (logged Info (lit "New release found for " ++ repo ++ lit " - repo: "
                      ++ repo) w) in
  if fits repo release then w0
  else logged Debug
         (lit "Truncating release notes for " ++ html_url release) w0.



(** The releases offered select one whose tag has no dotted number. *)
Definition unversioned env repo (beta : bool) : Prop :=
  exists release, offers env repo beta release /\ current release = lit "".

(** The two lines an entry leaves in the log when it takes the branch of a
    repository seen for the first time. *)
Definition first_seen_lines repo (beta : bool) : list LogEntry :=
  [ {| level := Debug;
       text := lit "Processing " ++ repo ++ lit " - beta: " ++ str_of_bool beta;
       cause := None |};
    {| level := Debug; text := first_seen_msg repo; cause := None |} ].

(** The notification [fetchReleases] posts after a 404. *)
Definition not_found_ntfy env repo : Ntfy :=
  {| n_url := NTFY_URL env;
     n_title := lit "Error";
     n_tags := lit "exclamation";
     n_markdown := lit "yes";
     n_authorization :=
       match NTFY_AUTH env with
       | Some auth => if truthy auth then lit "Bearer " ++ auth else lit ""
       | None => lit ""
       end;
     n_body := githubMarkdown (lit "Repository not found: " ++ repo) |}.

(** The world after the 404 was handled in [fetchReleases]; a failure of
    the posting, which nobody awaits, is left unhandled. *)
Definition not_found_world env repo (beta : bool) w : World :=
  let w1 :=
    posted (not_found_ntfy env repo)
      (logged Error (lit "Repository not found: " ++ repo)
         (arrived repo beta w)) in
  match http_post env (not_found_ntfy env repo) with
  | None => w1
  | Some e => rejected e w1
  end.

Definition find_of_undefined : Exn :=
  TypeError (lit "Cannot read properties of undefined (reading 'find')").

(** Only the entry of [repo] may differ between the two stores. *)
Definition off_key repo w w' : Prop :=
  forall k, k <> repo -> db w' !! k = db w !! k.

(** What an entry may change: it sets no timer, touches the store at its
    own key only, and posts at most one notification, about its own
    repository. *)
Record entry_frame env repo w w' : Prop := {
  frame_timers : timers w' = timers w;
  frame_db : off_key repo w w';
  frame_outbox :
    outbox w' = outbox w
    \/ outbox w' = outbox w ++ [not_found_ntfy env repo]
    \/ exists release, outbox w' = outbox w ++ [release_ntfy env repo release]
}.

(** What the [catch] of the loop makes of an entry. *)
Definition caught (line : jsstring) (r : Result unit * World) : World :=
  match r with
  | (Ok _, w1) => w1
  | (Throw e, w1) =>
      add_log {| level := Error;
                 text := lit "Failed to process line " ++ line;
                 cause := Some e |} w1
  end.

(** The timer [checkReleases] sets. *)
Definition next_sweep (d : Z) : Timer :=
  {| callback := CheckReleases; delay := Some d |}.

(** The fields of a line as [parseLine] reads them. *)
Definition fields_of (line : jsstring) : list jsstring :=
  map (fun part => toLowerCase (trim part)) (split 58 line).

End Notions.

(** Release notes that overflow the budget once their links are rewritten. *)
Module Overflow.

(** Release notes that list ninety issues by their URL: 3600 bytes. *)
Definition notes : jsstring :=
  concat (repeat (lit "https://github.com/acme/widget/issues/1 ") 90).

Definition release : Release := Plain.release "v1.1.0" notes false false.

Definition env : Env := Plain.env_with (Releases [release]).

Definition headers : jsstring :=
  headersOf (L := Plain.libs) Plain.repo release (current release).

End Overflow.

(** ** Notions of the further properties *)

Definition starts_space (s : jsstring) : bool :=
  match s with c :: _ => is_space c | [] => false end.

Definition ends_space (s : jsstring) : bool :=
  match last s with Some c => is_space c | None => false end.

(** A line as the loader hands it on: not empty, no white space at either
    end. *)
Definition clean_line (l : jsstring) : Prop :=
  l <> [] /\ starts_space l = false /\ ends_space l = false.

Section FurtherNotions.

Context {L : Libs}.

Implicit Types (env : Env) (w : World) (repo line : jsstring).

(** The repository a line names, if it names one. *)
Definition repo_of (line : jsstring) : option jsstring :=
  present (fst (parseLine line)).

(** The repositories the lines name, in the order of the lines. *)
Definition named (lines : list jsstring) : list jsstring := omap repo_of lines.

(** The world at the end of the loop of [checkReleases], before the timer
    is set, when the file was read. *)
Definition swept env (content : jsstring) w : World :=
  snd (forEach env (repoLines content)
         (logged Info (lit "Found " ++ str_of_nat (length (repoLines content))
                         ++ lit " repos to check...")
            (logged Info (lit "Performing release check") w))).

(** A notification about one of the repositories: that it was not found,
    or that it has a new release. *)
Definition about env (repos : list jsstring) (n : Ntfy) : Prop :=
  exists repo,
    repo ∈ repos
    /\ (n = not_found_ntfy env repo
        \/ exists release, n = release_ntfy env repo release).

(** A version as [sanitizeVersion] writes it: empty, or ["v"] and a dotted
    numeric sequence. *)
Definition normal (v : jsstring) : Prop :=
  v = lit "" \/ exists m, Dotted m /\ v = lit "v" ++ m.

(** What [processRepoLine] throws when the request for the releases failed
    with something else than a 404. *)
Definition fetch_failure (st : option Z) : Exn :=
  match st with
  | Some _ => AxiosError st
  | None =>
      TypeError (lit "Cannot read properties of undefined (reading 'status')")
  end.

(** The message assembled in [processRepoLine], before [sendNtfy] rewrites
    its links. *)
Definition message_of repo (release : Release) : jsstring :=
  headersOf repo release (current release) ++ shown_body repo release.

End FurtherNotions.

(** An instance of the libraries in which [ms] rejects the empty string and
    does not understand a string without digits. *)
Module Strict.

Definition ms_of (s : jsstring) : MsResult :=
  match s with
  | [] => MsThrows
  | _ :: _ => if existsb is_digit s then MsNumber 3600000 else MsUndefined
  end.

Definition libs : Libs := {|
  emojify := @emojify Plain.libs;
  validate := @validate Plain.libs;
  compareVersions := @compareVersions Plain.libs;
  toLowerCase := @toLowerCase Plain.libs;
  toLocaleString := @toLocaleString Plain.libs;
  ms := ms_of
|}.

(** Surroundings with the given interval and answers. *)
Definition env_with (interval : string) (answer : Response)
    (post : option Exn) : Env :=
  {| NTFY_URL := lit "https://ntfy.example/releases";
     NTFY_AUTH := Some (lit "secret");
     CHECK_INTERVAL := lit interval;
     REPO_FILE := lit "repos.txt";
     http_get := fun _ => answer;
     http_post := fun _ => post;
     read_file := fun _ =>
       Some (lit "# tracked" ++ [10] ++ lit "  Acme/Widget : beta  " ++ [13; 10]
               ++ [10] ++ lit "acme/gadget") |}.

End Strict.

(** The start of every URL the rewritings look for. *)
Definition github_prefix : jsstring := lit "https://github.com/".

(** [p] occurs somewhere in [s]. *)
Definition occurs (p s : jsstring) : Prop :=
  exists pre post, s = pre ++ p ++ post.

(** No [@] stands at the start of the text or right after white space;
    [prev] is the code unit before [s], if any. *)
Fixpoint mention_free (prev : option N) (s : jsstring) : bool :=
  match s with
  | [] => true
  | c :: s' =>
      negb ((c =? 64)
            && match prev with None => true | Some p => is_space p end)
      && mention_free (Some c) s'
  end.

(** The name of an owner or of a repository in a URL. *)
Definition Name (s : jsstring) : Prop :=
  s <> [] /\ Forall (fun c => is_name_char c = true) s.

(** [https://github.com/owner/repo/type/num] *)
Definition issue_url (owner repo type num : jsstring) : jsstring :=
  github_prefix ++ owner ++ 47 :: repo ++ 47 :: type ++ 47 :: num.

(** The first way [r] matches at [st] ends before [s'] with the captures
    [cs]. *)
Definition first_to (r : regex) (st : mstate) (s' : jsstring)
    (cs : list (nat * jsstring)) : Prop :=
  exists b' tl, run r st = MState b' s' cs :: tl.

(** The name of a user in a mention: letters, digits and hyphens, ending
    with a letter or a digit. *)
Definition UserName (user : jsstring) : Prop :=
  Forall (fun c => is_user_char c = true) user
  /\ exists init c, user = init ++ [c] /\ is_alnum c = true.

(** The first way [r] matches at [st] ends in the state [st']. *)
Definition first_at (r : regex) (st st' : mstate) : Prop :=
  exists tl, run r st = st' :: tl.

(** ** The earlier version of the program

    The second text in [main.js] (from line 219 on) is an earlier version
    of the program: it parses a line without lowering the case of the
    repository and without skipping comments, posts its messages as they
    are, and keeps the store under the id of the release. *)

Module Legacy.

Abbreviation release_fields := Release.

(** A release with its numeric [id]. *)
Record Release : Type := {
  id : N;
  fields : release_fields
}.

(** The answer to [GET /repos/{repo}/releases]. *)
Inductive Response : Type :=
| Releases (rs : list Release)
| Failed (status : option Z).

(** A number in a template literal and as the name of a property. *)
Definition str_of_N (n : N) : jsstring :=
  lit (NilEmpty.string_of_uint (N.to_uint n)).

(** [release.beta] read as a condition: the objects of the hosting API have
    no such property, it is [undefined]. *)
Definition beta_of (release : Release) : bool := false.

Section Program.

Context {L : Libs}.

Definition parseLine (line : jsstring) : jsstring * bool :=
  let parts := map (fun part => trim part) (split 58 line) in
  let repo := default (lit "undefined") (parts !! 0%nat) in
  let beta :=
    bool_decide
      (toLowerCase (default (lit "") (present (parts !! 1%nat))) = lit "beta") in
  (repo, beta).

Definition fetchReleases (get : jsstring -> Response) (repo : jsstring)
  : M (list Release) :=
  fun w =>
    match get (releases_url repo) with
    | Releases rs => (Ok rs, requested (releases_url repo) w)
    | Failed st => (Throw (AxiosError st), requested (releases_url repo) w)
    end.

Definition sendNtfy (env : Env) (title tag message : jsstring) : M unit :=
  axios_post env
    {| n_url := NTFY_URL env;
       n_title := title;
       n_tags := tag;
       n_markdown := lit "yes";
       n_authorization :=
         match NTFY_AUTH env with
         | Some auth => if truthy auth then lit "Bearer " ++ auth else lit ""
         | None => lit ""
         end;
       n_body := message |}.

(** The callback of [releases.find]. *)
Definition wanted (beta : bool) (release : Release) : bool :=
  if draft (fields release) then false
  else if negb beta && beta_of release then false
  else true.

Definition messageOf (repo : jsstring) (release : Release) : jsstring :=
  join (lit (String (ascii_of_nat 10) EmptyString))
    [ lit "**" ++ str_of_nullable (name (fields release)) ++ lit "**";
      lit "Repo: [" ++ repo ++ lit "](" ++ html_url (fields release) ++ lit ")";
      lit "Version: " ++ tag_name (fields release);
      lit "Published: " ++ toLocaleString (published_at (fields release));
      lit "";
      match present (body (fields release)) with
      | Some b => b
      | None => lit "No release notes."
      end ].

Definition processRepoLine (get : jsstring -> Response) (env : Env)
    (line : jsstring) : M unit :=
  let '(repo, beta) := parseLine line in
  log Debug (lit "Processing " ++ repo ++ lit " - beta: " ++ str_of_bool beta)
    None;;
  releases ← fetchReleases get repo;
  match find (wanted beta) releases with
  | None =>
      log Info (lit "No release found for " ++ repo ++ lit " - beta: "
        ++ str_of_bool beta) None
  | Some latestRelease =>
      let id := str_of_N (id latestRelease) in
      let tag := tag_name (fields latestRelease) in
      lastReleaseTag ← readDb id;
      match present lastReleaseTag with
      | None =>
          log Debug (lit "No previous release found for " ++ id
            ++ lit " in database. creating entry and skipping notification")
            None;;
          updateVersion id tag
      | Some lastReleaseTag =>
          if negb (validate lastReleaseTag) || negb (validate tag) then
            log Error (lit "Unable to parse versions. " ++ lastReleaseTag
              ++ lit " - last release " ++ tag ++ lit " - current release") None
          else
            match compareVersions lastReleaseTag tag with
            | None => throw VersionError
            | Some compareResult =>
                if (compareResult =? -1)%Z then
                  log Info (lit "New release found for " ++ repo
                    ++ lit " - id: " ++ id) None;;
                  updateVersion id tag;;
                  sendNtfy env (lit "New version available!")
                    (lit "loudspeaker") (messageOf repo latestRelease)
                else if (compareResult =? 1)%Z then
                  log Info (lit "Version downgrade on remote repository " ++ id
                    ++ lit " from " ++ lastReleaseTag ++ lit " to " ++ tag
                    ++ lit ". Updating local database to reflect") None;;
                  updateVersion id tag
                else
                  log Debug (lit "Found no increase in version from "
                    ++ lastReleaseTag ++ lit " to " ++ tag) None
            end
      end
  end.

(** What a visit leaves behind, the log apart: how it ended, the store,
    the outbox and the requests. *)
Definition effects (r : Result unit * World)
  : Result unit * gmap jsstring jsstring * list Ntfy * list jsstring :=
  (fst r, db (snd r), outbox (snd r), fetched (snd r)).

End Program.

End Legacy.

(** Does [p] occur in [s]? *)
Fixpoint occursb (p s : jsstring) : bool :=
  startsWith p s
  || match s with
     | [] => false
     | _ :: s' => occursb p s'
     end.

(** Inputs of the runs of the further properties. *)
Module Sample.

Definition content : jsstring :=
  lit "# tracked" ++ [10] ++ lit "  Acme/Widget : beta  " ++ [13; 10]
    ++ [10] ++ lit "acme/gadget".

Definition release : Release :=
  Plain.release "v1.1.0" (lit "Fixes.") false false.

Definition env : Env := Strict.env_with "1h" (Releases [release]) None.

(** The gateway refuses every notification. *)
Definition env_down : Env :=
  Strict.env_with "1h" (Releases [release]) (Some (AxiosError (Some 503%Z))).

Definition legacy_release : Legacy.Release :=
  {| Legacy.id := 7; Legacy.fields := release |}.

Definition legacy_world : World :=
  {| db := {[ lit "7" := lit "v1.0.0" ]}; logs := []; fetched := [];
     outbox := []; unhandled := []; timers := [] |}.

End Sample.

(** ** The runtime *)

(** Node ends a process in which a promise was rejected and the rejection
    is handled by nobody: the process exits with code 1, whatever it was
    doing.  A world with such a rejection is the world of a process that is
    about to end; [None] is a process that lives on. *)
Definition exit_code (w : World) : option Z :=
  match unhandled w with
  | [] => None
  | _ :: _ => Some 1%Z
  end.

Section Rejections.

Context {L : Libs}.

(** The rejection the entry of [repo] leaves to the runtime: that of the
    posting after a 404, which [fetchReleases] does not await. *)
Definition lost_rejection (env : Env) (repo : jsstring) : list Exn :=
  match http_get env (releases_url repo) with
  | Failed (Some status) =>
      if (status =? 404)%Z then
        match http_post env (not_found_ntfy env repo) with
        | Some e => [e]
        | None => []
        end
      else []
  | _ => []
  end.

End Rejections.

(** * Theorems *)

(** ** The selection of a release *)

Lemma find_first_such {A : Type} (P : A -> bool) (l : list A) :
  match find P l with
  | Some r => first_such P l r
  | None => Forall (fun x => P x = false) l
  end.
Proof.
  induction l as [|x l IH]; simpl.
  - constructor.
  - destruct (P x) eqn:Px.
    + exists [], l. repeat split; auto.
    + destruct (find P l) as [r|].
      * destruct IH as (l1 & l2 & -> & Pr & Hl1).
        exists (x :: l1), l2. repeat split; auto.
      * constructor; auto.
Qed.

Lemma wanted_eligible (beta : bool) (r : Release) :
  wanted beta r = eligible beta r.
Proof.
  unfold wanted, eligible. destruct (draft r), beta, (prerelease r); reflexivity.
Qed.

(** C4. The selected release is the first one, in the order supplied, that
    is not a draft and is a full release or allowed by the beta flag; when
    there is none it is the first release that is not a draft; when every
    release is a draft there is no selected release.  The three lists of
    the specification give the full release, the prerelease and nothing. *)
Theorem latestRelease_policy :
  (forall (releases : list Release) (beta : bool),
     match latestRelease releases beta with
     | Some r =>
         first_such (eligible beta) releases r
         \/ (Forall (fun x => eligible beta x = false) releases
             /\ first_such not_draft releases r)
     | None => Forall (fun x => draft x = true) releases
     end)
  /\ (let d := Plain.release "v3" [] true false in
      let p := Plain.release "v2-rc" [] false true in
      let ok := Plain.release "v1" [] false false in
      latestRelease [d; p; ok] false = Some ok
      /\ latestRelease [d; p] false = Some p
      /\ latestRelease [d] false = None).
Proof.
  split.
  - intros releases beta. unfold latestRelease.
    pose proof (find_first_such (wanted beta) releases) as H1.
    destruct (find (wanted beta) releases) as [r|].
    + left. destruct H1 as (l1 & l2 & E & Pr & Hl1).
      exists l1, l2. rewrite <- wanted_eligible. repeat split; auto.
      eapply Forall_impl; [exact Hl1|]. intros x Hx.
      now rewrite <- wanted_eligible.
    + pose proof (find_first_such (fun release => negb (draft release)) releases)
        as H2.
      destruct (find (fun release => negb (draft release)) releases) as [r|].
      * right. split; [|exact H2].
        eapply Forall_impl; [exact H1|]. intros x Hx.
        now rewrite <- wanted_eligible.
      * eapply Forall_impl; [exact H2|]. simpl. intros x Hx.
        now destruct (draft x).
  - simpl. repeat split; reflexivity.
Qed.

(** ** Truncation *)

Lemma byteLength_app (a b : jsstring) :
  starts_low b = false -> byteLength (a ++ b) = (byteLength a + byteLength b)%Z.
Proof.
  intros Hb. remember (length a) as n eqn:Hn.
  revert a Hn. induction n as [n IH] using lt_wf_ind. intros a Hn.
  destruct a as [|c [|d a']].
  - reflexivity.
  - simpl. destruct (c <? 128); [lia|]. destruct (c <? 2048); [lia|].
    destruct (is_high_surrogate c); [|lia].
    destruct b as [|e b']; [reflexivity|].
    simpl in Hb. rewrite Hb. lia.
  - assert (H1 : byteLength ((d :: a') ++ b)
                 = (byteLength (d :: a') + byteLength b)%Z).
    { apply (IH (length (d :: a'))); [subst n; simpl; lia | reflexivity]. }
    assert (H2 : byteLength (a' ++ b) = (byteLength a' + byteLength b)%Z).
    { apply (IH (length a')); [subst n; simpl; lia | reflexivity]. }
    change ((c :: d :: a') ++ b) with (c :: (d :: a') ++ b).
    change (byteLength (c :: (d :: a') ++ b)) with
      (if c <? 128 then (1 + byteLength ((d :: a') ++ b))%Z
       else if c <? 2048 then (2 + byteLength ((d :: a') ++ b))%Z
       else if is_high_surrogate c then
         if is_low_surrogate d then (4 + byteLength (a' ++ b))%Z
         else (3 + byteLength ((d :: a') ++ b))%Z
       else (3 + byteLength ((d :: a') ++ b))%Z).
    change (byteLength (c :: d :: a')) with
      (if c <? 128 then (1 + byteLength (d :: a'))%Z
       else if c <? 2048 then (2 + byteLength (d :: a'))%Z
       else if is_high_surrogate c then
         if is_low_surrogate d then (4 + byteLength a')%Z
         else (3 + byteLength (d :: a'))%Z
       else (3 + byteLength (d :: a'))%Z).
    rewrite H1, H2.
    destruct (c <? 128); [lia|]. destruct (c <? 2048); [lia|].
    destruct (is_high_surrogate c); [|lia].
    destruct (is_low_surrogate d); lia.
Qed.

Lemma byteLength_app_ends (a b : jsstring) :
  ends_high a = false -> byteLength (a ++ b) = (byteLength a + byteLength b)%Z.
Proof.
  remember (length a) as n eqn:Hn.
  revert a Hn. induction n as [n IH] using lt_wf_ind. intros a Hn Ha.
  destruct a as [|c [|d a']].
  - reflexivity.
  - unfold ends_high in Ha. simpl in Ha. simpl.
    rewrite Ha. destruct (c <? 128); [lia|]. destruct (c <? 2048); lia.
  - assert (H1 : byteLength ((d :: a') ++ b)
                 = (byteLength (d :: a') + byteLength b)%Z).
    { apply (IH (length (d :: a'))); [subst n; simpl; lia | reflexivity |].
      exact Ha. }
    assert (H2 : byteLength (a' ++ b) = (byteLength a' + byteLength b)%Z).
    { destruct a' as [|e a'']; [reflexivity|].
      apply (IH (length (e :: a''))); [subst n; simpl; lia | reflexivity |].
      exact Ha. }
    change ((c :: d :: a') ++ b) with (c :: (d :: a') ++ b).
    change (byteLength (c :: (d :: a') ++ b)) with
      (if c <? 128 then (1 + byteLength ((d :: a') ++ b))%Z
       else if c <? 2048 then (2 + byteLength ((d :: a') ++ b))%Z
       else if is_high_surrogate c then
         if is_low_surrogate d then (4 + byteLength (a' ++ b))%Z
         else (3 + byteLength ((d :: a') ++ b))%Z
       else (3 + byteLength ((d :: a') ++ b))%Z).
    change (byteLength (c :: d :: a')) with
      (if c <? 128 then (1 + byteLength (d :: a'))%Z
       else if c <? 2048 then (2 + byteLength (d :: a'))%Z
       else if is_high_surrogate c then
         if is_low_surrogate d then (4 + byteLength a')%Z
         else (3 + byteLength (d :: a'))%Z
       else (3 + byteLength (d :: a'))%Z).
    rewrite H1, H2.
    destruct (c <? 128); [lia|]. destruct (c <? 2048); [lia|].
    destruct (is_high_surrogate c); [|lia].
    destruct (is_low_surrogate d); lia.
Qed.

Lemma byteLength_fallback (url : jsstring) :
  byteLength (fallback url) = (24 + 2 * byteLength url)%Z.
Proof.
  unfold fallback.
  rewrite (byteLength_app_ends (lit "Full release notes: [")) by reflexivity.
  rewrite (byteLength_app url) by reflexivity.
  rewrite (byteLength_app_ends (lit "](")) by reflexivity.
  rewrite (byteLength_app url) by reflexivity.
  change (byteLength (lit "Full release notes: [")) with 21%Z.
  change (byteLength (lit "](")) with 2%Z.
  change (byteLength (lit ")")) with 1%Z.
  lia.
Qed.

(** C2, the claim as stated fails: a three-byte body over a budget of two
    bytes is replaced by a fallback of twenty-six bytes. *)
Lemma fallback_exceeds_budget :
  (byteLength (lit "abc") > 2)%Z
  /\ fst (trunkateReleaseBody (lit "abc") (lit "u") 2 Plain.world0)
     = Ok (fallback (lit "u"))
  /\ (byteLength (fallback (lit "u")) > 2)%Z.
Proof. vm_compute. repeat split; reflexivity. Qed.

(** C2, as amended.  A body within the budget is returned as it is; a body
    over the budget is replaced, after a debug line, by a link to the
    release page, whose length is 24 bytes plus twice the length of the
    URL, whatever the budget is. *)
Theorem trunkateReleaseBody_spec (body url : jsstring) (maxBytes : Z)
    (w : World) :
  trunkateReleaseBody body url maxBytes w
  = (if (byteLength body <=? maxBytes)%Z then (Ok body, w)
     else (Ok (fallback url),
           logged Debug (lit "Truncating release notes for " ++ url) w))
  /\ byteLength (fallback url) = (24 + 2 * byteLength url)%Z.
Proof.
  split; [|apply byteLength_fallback].
  unfold trunkateReleaseBody. destruct (byteLength body <=? maxBytes)%Z;
    reflexivity.
Qed.

(** ** Normalisation of a tag *)

(** *** The matcher on [\d+] *)

Lemma iterate_S (step : mstate -> list mstate) (n : nat) (st : mstate) :
  iterate step (S n) st
  = flat_map (fun st' =>
      (if (length (rest st') <? length (rest st))%nat
       then iterate step n st' else []) ++ [st']) (step st).
Proof. reflexivity. Qed.

Lemma iterate_class (p : N -> bool) (s : jsstring) :
  forall b c,
    iterate (run (Class p)) (S (length s)) (MState b s c) = plus_class p b s c.
Proof.
  induction s as [|x s' IH]; intros b c.
  - reflexivity.
  - rewrite iterate_S. cbn [run rest caps plus_class].
    destruct (p x); [|reflexivity].
    cbn [flat_map rest]. rewrite app_nil_r.
    replace (length s' <? length (x :: s'))%nat with true
      by (symmetry; apply Nat.ltb_lt; simpl; lia).
    cbn [length]. now rewrite IH.
Qed.

Lemma run_digits (b : option N) (s : jsstring) (c : list (nat * jsstring)) :
  run digits (MState b s c) = plus_class is_digit b s c.
Proof. apply iterate_class. Qed.

Lemma plus_class_nil (b : option N) (s : jsstring) (c : list (nat * jsstring)) :
  starts_digit s = false -> plus_class is_digit b s c = [].
Proof. destruct s as [|x s']; simpl; [reflexivity|]. now intros ->. Qed.

Lemma plus_class_max (D r : jsstring) (c : list (nat * jsstring)) :
  Forall (fun x => is_digit x = true) D -> D <> [] ->
  starts_digit r = false ->
  forall b, exists b' tl,
    plus_class is_digit b (D ++ r) c = MState b' r c :: tl
    /\ Forall (fun t => starts_digit (rest t) = true) tl.
Proof.
  intros HD. induction HD as [|x D' Hx HD' IH]; intros Hne Hr b; [easy|].
  cbn [app plus_class]. rewrite Hx.
  destruct D' as [|y D''].
  - cbn [app]. rewrite (plus_class_nil _ _ _ Hr).
    exists (Some x), []. split; [reflexivity | constructor].
  - destruct (IH ltac:(discriminate) Hr (Some x)) as (b' & tl & E & Htl).
    rewrite E. exists b', (tl ++ [MState (Some x) ((y :: D'') ++ r) c]).
    split; [reflexivity|].
    apply Forall_app. split; [exact Htl|].
    constructor; [|constructor]. simpl. now inversion HD'.
Qed.

(** Every string is its longest run of digits followed by the rest. *)
Lemma digit_span (s : jsstring) :
  exists D r, s = D ++ r /\ Forall (fun x => is_digit x = true) D
              /\ starts_digit r = false.
Proof.
  induction s as [|x s' (D & r & E & HD & Hr)].
  - exists [], []. repeat split; constructor.
  - destruct (is_digit x) eqn:Hx.
    + exists (x :: D), r. subst s'. repeat split; [constructor|]; assumption.
    + exists [], (x :: s'). repeat split; [constructor | exact Hx].
Qed.

(** A run of digits that is followed by something else is the longest run. *)
Lemma digit_span_unique (D r d z : jsstring) (y : N) :
  Forall (fun x => is_digit x = true) D -> starts_digit r = false ->
  Forall (fun x => is_digit x = true) d -> is_digit y = false ->
  D ++ r = d ++ y :: z -> D = d /\ r = y :: z.
Proof.
  intros HD Hr. revert d. induction HD as [|x D' Hx HD' IH]; intros d Hd Hy E.
  - destruct d as [|e d']; [now split|].
    simpl in E. subst r. simpl in Hr. inversion Hd; congruence.
  - destruct d as [|e d'].
    + simpl in E. inversion E; subst. congruence.
    + simpl in E. inversion E; subst. inversion Hd; subst.
      destruct (IH d') as [-> ->]; auto.
Qed.

(** *** The matcher on [(?:\.\d+)+] *)

Lemma run_dot_digits (b : option N) (r : jsstring) (c : list (nat * jsstring)) :
  run dot_digits (MState b r c)
  = match r with
    | x :: r1 => if is_dot x then plus_class is_digit (Some x) r1 c else []
    | [] => []
    end.
Proof.
  unfold dot_digits. change (run (Seq (Char 46) digits) (MState b r c))
    with (flat_map (run digits) (run (Char 46) (MState b r c))).
  destruct r as [|x r1]; [reflexivity|].
  unfold Char, is_dot. cbn [run rest caps]. destruct (46 =? x).
  - cbn [flat_map]. rewrite app_nil_r. apply run_digits.
  - reflexivity.
Qed.

Lemma groups_cons (D : jsstring) (ds : list jsstring) :
  groups (D :: ds) = 46 :: D ++ groups ds.
Proof. reflexivity. Qed.

Lemma starts_digit_span (D r : jsstring) :
  starts_digit (D ++ r) = true -> starts_digit r = false -> D <> [].
Proof. intros H1 H2 ->. simpl in H1. congruence. Qed.

(** Greedy iteration of the group: when the input goes on with a group, the
    first result stands after the last group that can be read. *)
Lemma iterate_dot_digits (n : nat) :
  forall r b c, (length r < n)%nat ->
    if starts_group r then
      exists ds post b' tl,
        ds <> [] /\ Forall Digits ds /\ r = groups ds ++ post /\ closed post
        /\ iterate (run dot_digits) n (MState b r c) = MState b' post c :: tl
    else iterate (run dot_digits) n (MState b r c) = [].
Proof.
  induction n as [|n IH]; intros r b c Hlen; [lia|].
  rewrite iterate_S, run_dot_digits.
  destruct r as [|x r1]; [reflexivity|].
  cbn [starts_group]. destruct (is_dot x) eqn:Hx; [|reflexivity].
  cbn [andb]. destruct (starts_digit r1) eqn:Hr1.
  2:{ now rewrite plus_class_nil. }
  destruct (digit_span r1) as (D & r2 & -> & HD & Hr2).
  pose proof (starts_digit_span _ _ Hr1 Hr2) as HDne.
  destruct (plus_class_max D r2 c HD HDne Hr2 (Some x)) as (b1 & tl1 & -> & _).
  cbn [flat_map rest].
  replace (length r2 <? length (x :: D ++ r2))%nat with true
    by (symmetry; apply Nat.ltb_lt; simpl; rewrite length_app; lia).
  assert (Hx' : x = 46) by (symmetry; now apply N.eqb_eq).
  assert (HDd : Digits D) by (split; assumption).
  assert (Hlen2 : (length r2 < n)%nat)
    by (simpl in Hlen; rewrite length_app in Hlen; lia).
  specialize (IH r2 b1 c Hlen2).
  destruct (starts_group r2) eqn:Hg.
  - destruct IH as (ds & post & b' & tl & Hds & HF & -> & Hcl & ->).
    exists (D :: ds), post, b'. eexists.
    split; [discriminate|]. split; [now constructor|].
    split; [|split; [exact Hcl | reflexivity]].
    rewrite groups_cons, Hx'. simpl. now rewrite <- app_assoc.
  - rewrite IH. exists [D], r2, b1. eexists.
    split; [discriminate|]. split; [now repeat constructor|].
    split; [|split; [now split | reflexivity]].
    rewrite Hx'. unfold groups. simpl. now rewrite app_nil_r.
Qed.

Lemma flat_map_nil {A B : Type} (f : A -> list B) (l : list A) :
  Forall (fun x => f x = []) l -> flat_map f l = [].
Proof. induction 1 as [|x l Hx _ IH]; simpl; [reflexivity|]. now rewrite Hx. Qed.

Lemma starts_digit_no_group (s : jsstring) :
  starts_digit s = true -> starts_group s = false.
Proof.
  destruct s as [|x s']; [discriminate|]. simpl. intros Hx.
  unfold is_dot. destruct (46 =? x) eqn:E; [|reflexivity].
  apply N.eqb_eq in E. subst x. discriminate.
Qed.

Lemma run_groups_digit (t : mstate) :
  starts_digit (rest t) = true -> run (Plus dot_digits) t = [].
Proof.
  intros H. destruct t as [b r c]. cbn [rest] in H.
  change (run (Plus dot_digits) (MState b r c))
    with (iterate (run dot_digits) (S (length r)) (MState b r c)).
  pose proof (iterate_dot_digits (S (length r)) r b c ltac:(lia)) as HI.
  now rewrite (starts_digit_no_group _ H) in HI.
Qed.

(** *** The matcher on [\d+(?:\.\d+)+] at one position *)

Lemma Dotted_starts_digit (m post : jsstring) :
  Dotted m -> starts_digit (m ++ post) = true.
Proof.
  intros (d & ds & [Hne Hd] & _ & _ & ->).
  destruct d as [|x d']; [easy|]. simpl. now inversion Hd.
Qed.

Lemma Dotted_first_group (m : jsstring) :
  Dotted m ->
  exists d z, Forall (fun x => is_digit x = true) d /\ m = d ++ 46 :: z
              /\ starts_digit z = true.
Proof.
  intros (d & ds & [_ Hd] & Hne & HF & ->).
  destruct ds as [|d1 ds']; [easy|].
  exists d, (d1 ++ groups ds'). split; [exact Hd|]. split; [reflexivity|].
  inversion HF as [|? ? [Hne1 Hd1] _]; subst.
  destruct d1 as [|y d1']; [easy|]. simpl. now inversion Hd1.
Qed.

Lemma run_dotted (b : option N) (s : jsstring) (c : list (nat * jsstring)) :
  (exists m post b' tl,
     s = m ++ post /\ Dotted m /\ closed post
     /\ run dotted (MState b s c) = MState b' post c :: tl)
  \/ (run dotted (MState b s c) = []
      /\ forall m post, s = m ++ post -> ~ Dotted m).
Proof.
  change (run dotted (MState b s c))
    with (flat_map (run (Plus dot_digits)) (run digits (MState b s c))).
  rewrite run_digits.
  destruct (digit_span s) as (D & r & -> & HD & Hr).
  destruct D as [|x D'].
  - right. cbn [app]. rewrite (plus_class_nil _ _ _ Hr). split; [reflexivity|].
    intros m post -> Hm. pose proof (Dotted_starts_digit m post Hm). congruence.
  - destruct (plus_class_max (x :: D') r c HD ltac:(discriminate) Hr b)
      as (b0 & tl0 & -> & Htl0).
    cbn [flat_map].
    rewrite (flat_map_nil (run (Plus dot_digits)) tl0)
      by (eapply Forall_impl; [exact Htl0 | apply run_groups_digit]).
    rewrite app_nil_r.
    change (run (Plus dot_digits) (MState b0 r c))
      with (iterate (run dot_digits) (S (length r)) (MState b0 r c)).
    pose proof (iterate_dot_digits (S (length r)) r b0 c ltac:(lia)) as HI.
    destruct (starts_group r) eqn:Hg.
    + left. destruct HI as (ds & post & b' & tl & Hds & HF & -> & Hcl & ->).
      exists ((x :: D') ++ groups ds), post, b', tl.
      split; [now rewrite <- app_assoc|]. split; [|split; [exact Hcl|reflexivity]].
      exists (x :: D'), ds. repeat split; auto; discriminate.
    + right. split; [exact HI|].
      intros m post E Hm.
      destruct (Dotted_first_group m Hm) as (d & z & Hd & -> & Hz).
      rewrite <- app_assoc in E. cbn [app] in E.
      destruct (digit_span_unique (x :: D') r d (z ++ post) 46
                  HD Hr Hd eq_refl E) as [_ ->].
      destruct z as [|y z']; [discriminate|].
      simpl in Hg, Hz. congruence.
Qed.

(** *** A sequence followed by a closed rest is the longest one *)

Lemma dot_ok_app (a b : jsstring) : dot_ok (a ++ b) = true -> dot_ok b = true.
Proof.
  induction a as [|x a IH]; simpl; [easy|].
  intros H. apply andb_true_iff in H. now apply IH.
Qed.

Lemma dot_ok_digits (d t : jsstring) :
  Forall (fun x => is_digit x = true) d -> dot_ok t = true ->
  dot_ok (d ++ t) = true.
Proof. induction 1 as [|x d Hx _ IH]; simpl; [easy|]. intros Ht. now rewrite Hx, IH. Qed.

Lemma dot_ok_groups (ds : list jsstring) :
  Forall Digits ds -> dot_ok (groups ds) = true.
Proof.
  induction 1 as [|d ds [Hne Hd] _ IH]; [reflexivity|].
  rewrite groups_cons. cbn [dot_ok].
  rewrite (dot_ok_digits _ _ Hd IH).
  destruct d as [|y d']; [easy|]. simpl. inversion Hd; subst.
  replace (is_digit y) with true by congruence. reflexivity.
Qed.

Lemma Dotted_dot_ok (m : jsstring) : Dotted m -> dot_ok m = true.
Proof.
  intros (d & ds & [_ Hd] & _ & HF & ->).
  apply dot_ok_digits; [exact Hd | now apply dot_ok_groups].
Qed.

Lemma closed_longest (m post m' post' : jsstring) :
  closed post -> m ++ post = m' ++ post' -> Dotted m' ->
  (length m' <= length m)%nat.
Proof.
  intros [Hd Hg] E Hm'.
  destruct (Nat.le_gt_cases (length m') (length m)) as [|Hlt]; [assumption|].
  exfalso.
  assert (Em : m' = m ++ drop (length m) m').
  { rewrite <- (take_drop (length m) m') at 1. f_equal.
    apply (f_equal (take (length m))) in E.
    rewrite take_app_length in E.
    rewrite take_app_le in E by lia. now symmetry. }
  assert (Ep : post = drop (length m) m' ++ post').
  { rewrite Em in E at 1. rewrite <- app_assoc in E.
    now apply app_inv_head in E. }
  destruct (drop (length m) m') as [|y x'] eqn:Ex.
  { apply (f_equal length) in Em. rewrite length_app in Em. simpl in Em. lia. }
  apply Dotted_dot_ok in Hm'. rewrite Em in Hm'. apply dot_ok_app in Hm'.
  cbn [dot_ok] in Hm'. apply andb_true_iff in Hm' as [Hy _].
  subst post. cbn [app starts_digit starts_group] in Hd, Hg.
  rewrite Hd in Hy. cbn [orb] in Hy.
  apply andb_true_iff in Hy as [Hy1 Hy2].
  rewrite Hy1 in Hg. cbn [andb] in Hg.
  destruct x' as [|e x'']; [discriminate|]. simpl in Hy2, Hg. congruence.
Qed.

(** *** The leftmost match *)

Lemma exec_at_version (prev : option N) (s : jsstring) :
  (exists m post cs,
     s = m ++ post /\ Dotted m /\ closed post
     /\ exec_at version_re prev s = Some (m, cs))
  \/ (exec_at version_re prev s = None
      /\ forall m post, s = m ++ post -> ~ Dotted m).
Proof.
  unfold exec_at, version_re.
  change (run (Group 1 dotted) (MState prev s []))
    with (map (fun st' => MState (before st') (rest st')
                 ((1%nat, consumed (MState prev s []) st') :: caps st'))
              (run dotted (MState prev s []))).
  destruct (run_dotted prev s []) as
    [(m & post & b' & tl & -> & Hm & Hcl & ->) | [-> Hno]].
  - left. exists m, post. eexists.
    split; [reflexivity|]. split; [exact Hm|]. split; [exact Hcl|].
    cbn [map rest]. f_equal. f_equal.
    rewrite length_app.
    replace (length m + length post - length post)%nat with (length m) by lia.
    apply take_app_length.
  - right. split; [reflexivity | exact Hno].
Qed.

Lemma search_version (tag : jsstring) :
  forall prev,
    (search version_re prev tag = None /\ NoDotted tag)
    \/ (exists pre m post cs,
          tag = pre ++ m ++ post /\ Dotted m /\ closed post
          /\ search version_re prev tag = Some (m, cs)
          /\ forall pre' m' post',
               tag = pre' ++ m' ++ post' -> Dotted m' ->
               (length pre <= length pre')%nat).
Proof.
  induction tag as [|x tag' IH]; intros prev.
  - left. cbn [search].
    destruct (exec_at_version prev []) as
      [(m & post & cs & E & Hm & _ & _) | [-> Hno]].
    + symmetry in E. apply app_eq_nil in E as [-> _].
      destruct Hm as (d & ds & [Hne _] & _ & _ & E).
      symmetry in E. apply app_eq_nil in E as [-> _]. easy.
    + split; [reflexivity|]. intros pre m post E Hm.
      symmetry in E. apply app_eq_nil in E as [-> E].
      apply (Hno m post); [now symmetry | exact Hm].
  - cbn [search].
    destruct (exec_at_version prev (x :: tag')) as
      [(m & post & cs & E & Hm & Hcl & ->) | [-> Hno]].
    + right. exists [], m, post, cs.
      split; [exact E|]. split; [exact Hm|]. split; [exact Hcl|].
      split; [reflexivity|]. intros; simpl; lia.
    + destruct (IH (Some x)) as
        [[-> Hno'] | (pre & m & post & cs & -> & Hm & Hcl & -> & Hleft)].
      * left. split; [reflexivity|]. intros pre m post E Hm.
        destruct pre as [|y pre'].
        -- apply (Hno m post); assumption.
        -- simpl in E. inversion E; subst. now apply (Hno' pre' m post).
      * right. exists (x :: pre), m, post, cs.
        split; [reflexivity|]. split; [exact Hm|]. split; [exact Hcl|].
        split; [reflexivity|].
        intros pre' m' post' E Hm'. destruct pre' as [|y pre''].
        -- exfalso. now apply (Hno m' post').
        -- simpl in E. inversion E; subst. simpl.
           apply le_n_S. now apply (Hleft pre'' m' post').
Qed.

(** C7. [sanitizeVersion] returns the empty string when no part of the tag
    is a dotted numeric sequence; otherwise it returns ["v"] followed by
    the first such sequence: the one that starts leftmost, taken as far as
    it extends.  In particular ["v2.3.1-rc.1"] gives ["v2.3.1"] and
    ["release"] gives the empty string. *)
Theorem sanitizeVersion_first_dotted :
  (forall tag : jsstring,
     (NoDotted tag /\ sanitizeVersion tag = lit "")
     \/ (exists pre m post,
           tag = pre ++ m ++ post /\ Dotted m
           /\ sanitizeVersion tag = lit "v" ++ m
           /\ (forall pre' m' post',
                 tag = pre' ++ m' ++ post' -> Dotted m' ->
                 (length pre <= length pre')%nat)
           /\ (forall m' post',
                 m ++ post = m' ++ post' -> Dotted m' ->
                 (length m' <= length m)%nat)))
  /\ sanitizeVersion (lit "v2.3.1-rc.1") = lit "v2.3.1"
  /\ sanitizeVersion (lit "release") = lit "".
Proof.
  split; [|split; vm_compute; reflexivity].
  intros tag. unfold sanitizeVersion.
  destruct (search_version tag None) as
    [[-> Hno] | (pre & m & post & cs & E & Hm & Hcl & -> & Hleft)].
  - left. now split.
  - right. exists pre, m, post. repeat split; auto.
    intros m' post' E' Hm'. now apply (closed_longest m post m' post').
Qed.

(** ** One entry of the list *)

Section Entry.

Context {L : Libs}.

Implicit Types (env : Env) (w : World) (repo line : jsstring).

Lemma processRepoLine_selected env line repo beta release w :
  names line repo beta -> offers env repo beta release ->
  processRepoLine env line w = track env repo release (arrived repo beta w).
Proof.
  intros [Hp Ht] (releases & Hg & Hs).
  unfold processRepoLine. rewrite Hp. unfold present. rewrite Ht.
  unfold fetchReleases. unfold_m. rewrite Hg. unfold_m.
  rewrite Hs. reflexivity.
Qed.

Lemma track_first_seen env repo release w :
  present (db w !! repo) = None ->
  track env repo release w
  = (Ok tt, stored repo (current release)
              (logged Debug (first_seen_msg repo) w)).
Proof.
  intros H. unfold track, mbind, M_bind, readDb. rewrite H. reflexivity.
Qed.

Lemma track_unparsable env repo release lastVersion w :
  present (db w !! repo) = Some lastVersion ->
  validate lastVersion = false \/ validate (current release) = false ->
  track env repo release w
  = (Ok tt, logged Error
              (unparsable_msg repo lastVersion (current release)) w).
Proof.
  intros H Hv. unfold track, mbind, M_bind, readDb. rewrite H.
  fold (current release).
  replace (negb (validate lastVersion) || negb (validate (current release)))
    with true by (destruct Hv as [-> | ->]; simpl;
                  [reflexivity | now rewrite orb_true_r]).
  reflexivity.
Qed.

Lemma track_compared env repo release lastVersion k w :
  present (db w !! repo) = Some lastVersion ->
  validate lastVersion = true -> validate (current release) = true ->
  compareVersions lastVersion (current release) = Some k ->
  track env repo release w
  = if (k =? -1)%Z then announce env repo release (current release) w
    else if (k =? 1)%Z then
      (Ok tt, stored repo (current release)
                (logged Info
                   (downgrade_msg repo lastVersion (current release)) w))
    else (Ok tt, logged Debug
                   (same_msg repo lastVersion (current release)) w).
Proof.
  intros H H1 H2 Hk. unfold track, mbind, M_bind, readDb. rewrite H.
  fold (current release). rewrite H1, H2, Hk. cbn [negb orb].
  destruct (k =? -1)%Z; [reflexivity|]. destruct (k =? 1)%Z; reflexivity.
Qed.

(** The branch of a newer version: the store is updated, then exactly one
    notification is posted, with the body or its replacement. *)
Lemma announce_eq env repo release w :
  announce env repo release (current release) w
  = axios_post env (release_ntfy env repo release)
      (before_post repo release w).
Proof.
  unfold announce, trunkateReleaseBody, before_post, release_ntfy, shown_body,
    sendNtfy, fits.
  unfold mbind, M_bind, log, updateVersion. cbv beta iota.
  destruct (byteLength (emojify (releaseBodyOf release))
            <=? MAX_MESSAGE_BYTES
                - byteLength (headersOf repo release (current release)))%Z;
    reflexivity.
Qed.

Lemma announce_world env repo release w :
  exists w1,
    snd (announce env repo release (current release) w)
    = posted (release_ntfy env repo release) w1
    /\ db w1 = <[repo := current release]> (db w)
    /\ outbox w1 = outbox w /\ fetched w1 = fetched w
    /\ unhandled w1 = unhandled w /\ timers w1 = timers w.
Proof.
  exists (before_post repo release w). rewrite announce_eq. split.
  - unfold axios_post. destruct (http_post env _); reflexivity.
  - unfold before_post. destruct (fits repo release); repeat split.
Qed.



(** C6, the claim as stated fails.  The store may hold the empty string,
    which the program itself writes for a tag without a number: that stored
    version fails validation, and yet the entry logs no error and
    overwrites it with the observed version. *)
Lemma stored_empty_string_is_overwritten :
  let release := Plain.release "v1.1.0" (lit "Fixes.") false false in
  let env := Plain.env_with (Releases [release]) in
  let w := Plain.world_with "" in
  let w' := snd (processRepoLine (L := Plain.libs) env Plain.line w) in
  db w !! Plain.repo = Some (lit "")
  /\ @validate Plain.libs (lit "") = false
  /\ db w' !! Plain.repo = Some (lit "v1.1.0")
  /\ map level (logs w') = [Debug; Debug].
Proof. vm_compute. repeat split; reflexivity. Qed.

(** C6, as amended.  When a version that is not the empty string is stored,
    and the stored version or the observed one is not valid, the entry ends
    after one error line in the log: the store and the outbox are as they
    were, and the result does not depend on [compareVersions], which is not
    called. *)
Theorem processRepoLine_unparsable env line repo beta release lastVersion w :
  names line repo beta -> offers env repo beta release ->
  db w !! repo = Some lastVersion -> truthy lastVersion = true ->
  validate lastVersion = false \/ validate (current release) = false ->
  processRepoLine env line w
  = (Ok tt, logged Error (unparsable_msg repo lastVersion (current release))
              (arrived repo beta w))
  /\ db (snd (processRepoLine env line w)) = db w
  /\ outbox (snd (processRepoLine env line w)) = outbox w.
Proof.
  intros Hn Ho Hdb Ht Hv.
  rewrite (processRepoLine_selected _ _ _ _ _ _ Hn Ho).
  rewrite (track_unparsable _ _ _ lastVersion).
  - repeat split.
  - cbn [arrived requested logged add_log db]. rewrite Hdb. unfold present.
    now rewrite Ht.
  - exact Hv.
Qed.

Lemma processRepoLine_first_seen env line repo beta release w :
  names line repo beta -> offers env repo beta release ->
  present (db w !! repo) = None ->
  processRepoLine env line w
  = (Ok tt, stored repo (current release)
              (logged Debug (first_seen_msg repo) (arrived repo beta w))).
Proof.
  intros Hn Ho Hdb.
  rewrite (processRepoLine_selected _ _ _ _ _ _ Hn Ho).
  now apply track_first_seen.
Qed.

Lemma visits_unversioned line repo beta :
  names line repo beta ->
  forall envs w,
    Forall (fun env => unversioned env repo beta) envs ->
    present (db w !! repo) = None ->
    exists w',
      visits envs line w = (Ok tt, w')
      /\ outbox w' = outbox w
      /\ db w' !! repo
         = match envs with [] => db w !! repo | _ :: _ => Some (lit "") end
      /\ logs w'
         = logs w ++ concat (map (fun _ => first_seen_lines repo beta) envs).
Proof.
  intros Hn envs. induction envs as [|env envs' IH]; intros w HF Hdb.
  - exists w. cbn [visits map concat]. rewrite app_nil_r. now repeat split.
  - inversion HF as [|? ? (release & Ho & Hcur) HF']; subst.
    cbn [visits]. unfold guarded. unfold_m.
    rewrite (processRepoLine_first_seen _ _ _ _ _ _ Hn Ho Hdb). cbv beta iota.
    set (w1 := stored repo (current release)
                 (logged Debug (first_seen_msg repo) (arrived repo beta w))).
    assert (Hdb1 : db w1 !! repo = Some (lit "")).
    { subst w1. cbn [stored db]. rewrite lookup_insert_eq. now rewrite Hcur. }
    assert (Hp1 : present (db w1 !! repo) = None) by now rewrite Hdb1.
    destruct (IH w1 HF' Hp1) as (w' & -> & Hout & Hdb' & Hlogs).
    exists w'. split; [reflexivity|]. split; [exact Hout|]. split.
    + rewrite Hdb'. destruct envs'; [exact Hdb1 | reflexivity].
    + rewrite Hlogs. subst w1.
      cbn [stored logged arrived requested add_log logs map concat].
      unfold first_seen_lines. rewrite <- !app_assoc. reflexivity.
Qed.

(** C10. A tag without a dotted number is stored as the empty string when
    the repository has no entry, whatever [validate] would say; a later
    sweep that finds the empty string stored takes the branch of a first
    sight again; over any number of sweeps that see such tags, every visit
    takes that branch and nothing is posted. *)
Theorem empty_version_never_notifies line repo beta :
  names line repo beta ->
  (forall env w,
     unversioned env repo beta -> db w !! repo = None ->
     processRepoLine env line w
     = (Ok tt, stored repo (lit "")
                 (logged Debug (first_seen_msg repo) (arrived repo beta w))))
  /\ (forall env w release,
        offers env repo beta release -> db w !! repo = Some (lit "") ->
        processRepoLine env line w
        = (Ok tt, stored repo (current release)
                    (logged Debug (first_seen_msg repo)
                       (arrived repo beta w))))
  /\ (forall envs w,
        Forall (fun env => unversioned env repo beta) envs ->
        db w !! repo = None \/ db w !! repo = Some (lit "") ->
        exists w',
          visits envs line w = (Ok tt, w')
          /\ outbox w' = outbox w
          /\ (envs <> [] -> db w' !! repo = Some (lit ""))
          /\ logs w'
             = logs w
               ++ concat (map (fun _ => first_seen_lines repo beta) envs)).
Proof.
  intros Hn. split; [|split].
  - intros env w (release & Ho & Hcur) Hdb. rewrite <- Hcur.
    apply (processRepoLine_first_seen _ _ _ _ _ _ Hn Ho). now rewrite Hdb.
  - intros env w release Ho Hdb.
    apply (processRepoLine_first_seen _ _ _ _ _ _ Hn Ho). now rewrite Hdb.
  - intros envs w HF Hdb.
    assert (Hp : present (db w !! repo) = None)
      by (destruct Hdb as [-> | ->]; reflexivity).
    destruct (visits_unversioned _ _ _ Hn envs w HF Hp)
      as (w' & E & Hout & Hdb' & Hlogs).
    exists w'. repeat split; try assumption.
    intros Hne. rewrite Hdb'. destruct envs; [easy | reflexivity].
Qed.

End Entry.

(** ** A repository that is not found *)

Section NotFound.

Context {L : Libs}.

Implicit Types (env : Env) (w : World) (repo line : jsstring).

(** C3, what the code does.  After a 404 the error line is logged and the
    notification is posted, and the store is as it was; but
    [fetchReleases] has returned [undefined], and [processRepoLine] goes on
    to call [find] on it: the entry ends by throwing a [TypeError], which
    the sweep logs as a failure to process the line. *)
Theorem processRepoLine_not_found_throws env line repo beta w :
  names line repo beta ->
  http_get env (releases_url repo) = Failed (Some 404%Z) ->
  processRepoLine env line w
  = (Throw find_of_undefined, not_found_world env repo beta w)
  /\ guarded env line w
     = (Ok tt, add_log {| level := Error;
                          text := lit "Failed to process line " ++ line;
                          cause := Some find_of_undefined |}
                 (not_found_world env repo beta w))
  /\ outbox (not_found_world env repo beta w)
     = outbox w ++ [not_found_ntfy env repo]
  /\ db (not_found_world env repo beta w) = db w.
Proof.
  intros [Hp Ht] Hg.
  assert (E : processRepoLine env line w
              = (Throw find_of_undefined, not_found_world env repo beta w)).
  { unfold processRepoLine. rewrite Hp. unfold present. rewrite Ht.
    unfold fetchReleases. unfold_m. rewrite Hg. unfold_m.
    cbn [response_status]. cbv beta iota.
    change (404 =? 404)%Z with true. unfold_m.
    unfold sendNtfy, not_found_world. unfold_m.
    fold (not_found_ntfy env repo).
    destruct (http_post env (not_found_ntfy env repo)); reflexivity. }
  split; [exact E|]. split.
  - unfold guarded, catch. rewrite E. reflexivity.
  - unfold not_found_world.
    destruct (http_post env (not_found_ntfy env repo)); split; reflexivity.
Qed.

End NotFound.

(** ** The sweep *)

Section Sweep.

Context {L : Libs}.

Implicit Types (env : Env) (w : World) (repo line : jsstring).

Lemma track_frame env repo release w :
  fetched (snd (track env repo release w)) = fetched w
  /\ entry_frame env repo w (snd (track env repo release w)).
Proof.
  destruct (present (db w !! repo)) as [lastVersion|] eqn:Hp.
  2:{ rewrite (track_first_seen _ _ _ _ Hp). split; [reflexivity|].
      split; [reflexivity | | now left].
      intros k Hk. cbn [snd stored db logged add_log].
      now rewrite lookup_insert_ne. }
  destruct (validate lastVersion) eqn:H1.
  2:{ rewrite (track_unparsable _ _ _ _ _ Hp (or_introl H1)).
      split; [reflexivity|]. split; [reflexivity | easy | now left]. }
  destruct (validate (current release)) eqn:H2.
  2:{ rewrite (track_unparsable _ _ _ _ _ Hp (or_intror H2)).
      split; [reflexivity|]. split; [reflexivity | easy | now left]. }
  destruct (compareVersions lastVersion (current release)) as [k|] eqn:Hk.
  2:{ unfold track. unfold_m. rewrite Hp. fold (current release).
      rewrite H1, H2, Hk. cbn [negb orb snd].
      split; [reflexivity|]. split; [reflexivity | easy | now left]. }
  rewrite (track_compared _ _ _ _ _ _ Hp H1 H2 Hk).
  destruct (k =? -1)%Z.
  - destruct (announce_world env repo release w)
      as (w1 & -> & Hd & Hout & Hf & _ & Ht).
    split; [exact Hf|]. split.
    + exact Ht.
    + intros k' Hk'. cbn [posted db]. rewrite Hd. now rewrite lookup_insert_ne.
    + right. right. exists release. cbn [posted outbox]. now rewrite Hout.
  - destruct (k =? 1)%Z; cbn [snd]; (split; [reflexivity|]);
      (split; [reflexivity | | now left]); [|easy].
    intros k' Hk'. cbn [stored db logged add_log].
    now rewrite lookup_insert_ne.
Qed.

Lemma processRepoLine_frame env line repo beta w :
  names line repo beta ->
  fetched (snd (processRepoLine env line w))
  = fetched w ++ [releases_url repo]
  /\ entry_frame env repo w (snd (processRepoLine env line w)).
Proof.
  intros Hn. pose proof Hn as [Hp Ht].
  destruct (http_get env (releases_url repo)) as [releases | st] eqn:Hg.
  - destruct (latestRelease releases beta) as [release|] eqn:Hs.
    + rewrite (processRepoLine_selected env line repo beta release w Hn)
        by (exists releases; now split).
      destruct (track_frame env repo release (arrived repo beta w))
        as [Hf [H1 H2 H3]].
      split; [now rewrite Hf|]. split; assumption.
    + unfold processRepoLine. rewrite Hp. unfold present. rewrite Ht.
      unfold fetchReleases. unfold_m. rewrite Hg. unfold_m. rewrite Hs.
      cbn [snd]. split; [reflexivity|].
      split; [reflexivity | easy | now left].
  - unfold processRepoLine. rewrite Hp. unfold present. rewrite Ht.
    unfold fetchReleases. unfold_m. rewrite Hg. unfold_m.
    destruct st as [z|]; cbn [response_status]; cbv beta iota.
    2:{ cbn [snd]. split; [reflexivity|].
        split; [reflexivity | easy | now left]. }
    destruct (z =? 404)%Z.
    2:{ cbn [snd]. split; [reflexivity|].
        split; [reflexivity | easy | now left]. }
    unfold_m. unfold sendNtfy. unfold_m. fold (not_found_ntfy env repo).
    destruct (http_post env (not_found_ntfy env repo)); cbn [snd];
      (split; [reflexivity|]);
      (split; [reflexivity | easy | right; now left]).
Qed.

(** A line that names no repository leaves one debug line in the log. *)
Lemma processRepoLine_skipped env line w :
  present (fst (parseLine line)) = None ->
  processRepoLine env line w
  = (Ok tt, logged Debug (lit "Skipping commented repo line: " ++ line) w).
Proof.
  intros H. unfold processRepoLine.
  destruct (parseLine line) as [repo beta]. cbn [fst] in H. now rewrite H.
Qed.

Lemma processRepoLine_timers env line w :
  timers (snd (processRepoLine env line w)) = timers w.
Proof.
  destruct (present (fst (parseLine line))) as [repo|] eqn:Hp.
  - destruct (parseLine line) as [r beta] eqn:E. cbn [fst] in Hp.
    unfold present in Hp. destruct r as [r|]; [|discriminate].
    destruct (truthy r) eqn:Ht; [|discriminate]. injection Hp as ->.
    destruct (processRepoLine_frame env line repo beta w) as [_ [H _ _]];
      [now split | exact H].
  - now rewrite (processRepoLine_skipped _ _ _ Hp).
Qed.

Lemma guarded_caught env line w :
  guarded env line w = (Ok tt, caught line (processRepoLine env line w)).
Proof.
  unfold guarded, catch, caught.
  destruct (processRepoLine env line w) as [[[]|e] w1]; reflexivity.
Qed.

Lemma guarded_timers env line w :
  timers (snd (guarded env line w)) = timers w.
Proof.
  rewrite guarded_caught. cbn [snd]. unfold caught.
  pose proof (processRepoLine_timers env line w) as H.
  destruct (processRepoLine env line w) as [[[]|e] w1]; exact H.
Qed.

Lemma forEach_cons env line lines w :
  forEach env (line :: lines) w = forEach env lines (snd (guarded env line w)).
Proof.
  cbn [forEach]. unfold_m. fold (guarded env line).
  now rewrite guarded_caught.
Qed.

Lemma forEach_total env lines :
  forall w, exists w',
    forEach env lines w = (Ok tt, w') /\ timers w' = timers w.
Proof.
  induction lines as [|line lines IH]; intros w.
  - exists w. now split.
  - rewrite forEach_cons.
    destruct (IH (snd (guarded env line w))) as (w' & -> & Ht).
    exists w'. split; [reflexivity|]. now rewrite Ht, guarded_timers.
Qed.

End Sweep.

(** ** Letter case *)

(** Code units with the same lowercase form are equal or both letters. *)
Lemma ascii_fold_eq (x y : N) :
  ascii_fold x = ascii_fold y ->
  x = y \/ (65 <= x /\ x <= 122 /\ 65 <= y /\ y <= 122).
Proof. unfold ascii_fold, is_upper, between. intros H. decide_units. Qed.

Lemma same_unit_eqb (x y c : N) :
  ascii_fold x = ascii_fold y -> c < 65 \/ 122 < c -> (x =? c) = (y =? c).
Proof.
  intros H Hc. destruct (ascii_fold_eq x y H) as [-> | Hl]; [reflexivity|].
  decide_units.
Qed.

Lemma letter_not_space (c : N) : 65 <= c -> c <= 122 -> is_space c = false.
Proof.
  intros Hlo Hhi.
  assert (E : forall k, k < 65 \/ 122 < k -> (c =? k) = false)
    by (intros k Hk; apply N.eqb_neq; lia).
  assert (B : forall lo hi, hi < 65 \/ 122 < lo -> between lo hi c = false).
  { intros lo hi Hk. unfold between. apply andb_false_iff.
    destruct Hk; [right | left]; apply N.leb_gt; lia. }
  unfold is_space.
  rewrite !B by (first [left; reflexivity | right; reflexivity]).
  rewrite !E by (first [left; reflexivity | right; reflexivity]).
  reflexivity.
Qed.

Lemma same_unit_space (x y : N) :
  ascii_fold x = ascii_fold y -> is_space x = is_space y.
Proof.
  intros H. destruct (ascii_fold_eq x y H) as [-> | (H1 & H2 & H3 & H4)];
    [reflexivity|].
  now rewrite !letter_not_space.
Qed.

Lemma same_letters_rev (a b : jsstring) :
  same_letters a b -> same_letters (rev a) (rev b).
Proof.
  induction 1 as [|x y a b Hxy _ IH]; [constructor|].
  cbn [rev]. apply Forall2_app; [exact IH|]. now repeat constructor.
Qed.

Lemma same_letters_trimStart (a b : jsstring) :
  same_letters a b -> same_letters (trimStart a) (trimStart b).
Proof.
  induction 1 as [|x y a b Hxy Hab IH]; [constructor|].
  cbn [trimStart]. rewrite (same_unit_space x y Hxy).
  destruct (is_space y); [exact IH | now constructor].
Qed.

Lemma same_letters_trim (a b : jsstring) :
  same_letters a b -> same_letters (trim a) (trim b).
Proof.
  intros H. unfold trim, trimEnd.
  now apply same_letters_rev, same_letters_trimStart, same_letters_rev,
    same_letters_trimStart.
Qed.

Lemma same_letters_split (sep : N) (a b : jsstring) :
  sep < 65 \/ 122 < sep -> same_letters a b ->
  Forall2 same_letters (split sep a) (split sep b).
Proof.
  intros Hsep. induction 1 as [|x y a b Hxy Hab IH].
  - repeat constructor.
  - cbn [split]. rewrite (same_unit_eqb x y sep Hxy Hsep).
    destruct (y =? sep).
    + constructor; [constructor | exact IH].
    + inversion IH as [|p q ps qs Hpq Hps]; subst.
      * repeat constructor. exact Hxy.
      * constructor; [now constructor | exact Hps].
Qed.

Lemma split_nonempty (sep : N) (s : jsstring) : split sep s <> [].
Proof.
  destruct s as [|c s']; [discriminate|]. cbn [split].
  destruct (c =? sep); [discriminate|]. now destruct (split sep s').
Qed.

Lemma same_map {A B : Type} (R : A -> A -> Prop) (f : A -> B) (l k : list A) :
  (forall a b, R a b -> f a = f b) -> Forall2 R l k -> map f l = map f k.
Proof.
  intros Hf. induction 1 as [|a b l k Hab _ IH]; [reflexivity|].
  cbn [map]. now rewrite (Hf a b Hab), IH.
Qed.

Section Case.

Context {L : Libs}.

Implicit Types (env : Env) (w : World) (repo line : jsstring).

Lemma parseLine_fields (line : jsstring) :
  startsWith (lit "#") line = false ->
  exists field others,
    split 58 line = field :: others
    /\ parseLine line
       = (Some (toLowerCase (trim field)),
          bool_decide (default (lit "") (fields_of line !! 1%nat) = lit "beta")).
Proof.
  intros Hs. unfold parseLine, fields_of. rewrite Hs.
  destruct (split 58 line) as [|field others] eqn:E.
  - now destruct (split_nonempty 58 line).
  - exists field, others. split; reflexivity.
Qed.

Lemma parseLine_same (l1 l2 : jsstring) :
  (forall a b, same_letters a b -> toLowerCase a = toLowerCase b) ->
  same_letters l1 l2 -> parseLine l1 = parseLine l2.
Proof.
  intros Hlow H. unfold parseLine.
  assert (Hs : startsWith (lit "#") l1 = startsWith (lit "#") l2).
  { destruct H as [|x y a b Hxy _]; [reflexivity|].
    change (lit "#") with [35]. cbn [startsWith].
    rewrite !(N.eqb_sym 35).
    now rewrite (same_unit_eqb x y 35 Hxy) by (left; lia). }
  rewrite Hs. destruct (startsWith (lit "#") l2); [reflexivity|].
  rewrite (same_map same_letters (fun part => toLowerCase (trim part))
             (split 58 l1) (split 58 l2)).
  - reflexivity.
  - intros a b Hab. now apply Hlow, same_letters_trim.
  - apply same_letters_split; [left; lia | exact H].
Qed.

(** C9. Every field of a line that is not a comment is trimmed and
    lowercased, the repository id included; that lowercased id is the one
    in the request to the hosting API, the only key of the store the entry
    may touch, and the one the notifications are rendered with; two lines
    that differ only in the case of their letters are parsed alike, hence
    resolve to the same entry of the store. *)
Theorem parseLine_lowercases_repo :
  (forall a b, same_letters a b -> toLowerCase a = toLowerCase b) ->
  (forall line,
     startsWith (lit "#") line = false ->
     exists field others,
       split 58 line = field :: others
       /\ parseLine line
          = (Some (toLowerCase (trim field)),
             bool_decide
               (default (lit "") (fields_of line !! 1%nat) = lit "beta")))
  /\ (forall env line repo beta w,
        names line repo beta ->
        let w' := snd (processRepoLine env line w) in
        fetched w' = fetched w ++ [releases_url repo]
        /\ off_key repo w w'
        /\ (outbox w' = outbox w
            \/ outbox w' = outbox w ++ [not_found_ntfy env repo]
            \/ exists release,
                 outbox w' = outbox w ++ [release_ntfy env repo release]))
  /\ (forall l1 l2, same_letters l1 l2 -> parseLine l1 = parseLine l2).
Proof.
  intros Hlow. split; [exact parseLine_fields|]. split.
  - intros env line repo beta w Hn w'. subst w'.
    destruct (processRepoLine_frame env line repo beta w Hn)
      as [Hf [_ Hd Ho]].
    now repeat split.
  - intros l1 l2. now apply parseLine_same.
Qed.

End Case.

Lemma plain_lowercase_same (a b : jsstring) :
  same_letters a b -> @toLowerCase Plain.libs a = @toLowerCase Plain.libs b.
Proof.
  induction 1 as [|x y a b Hxy _ IH]; [reflexivity|].
  cbn [toLowerCase Plain.libs map] in *. f_equal; [exact Hxy | exact IH].
Qed.

(** ** The budget and the link rewriting *)

(** C1, what the code does.  Only the emoji expansion comes before the
    length check; the links are rewritten afterwards, in [sendNtfy], on the
    assembled message.  For release notes of ninety issue URLs the headers
    and the measured body take 3722 bytes, the check passes and the body is
    kept, and the message that is posted has 4262 bytes, over
    [MAX_MESSAGE_BYTES]. *)
Theorem links_rewritten_after_length_check :
  let measured := @emojify Plain.libs (releaseBodyOf Overflow.release) in
  let w' := snd (processRepoLine (L := Plain.libs) Overflow.env Plain.line
                   (Plain.world_with "v1.0.0")) in
  fits (L := Plain.libs) Plain.repo Overflow.release = true
  /\ (byteLength Overflow.headers + byteLength measured = 3722)%Z
  /\ githubMarkdown (L := Plain.libs) (releaseBodyOf Overflow.release)
     <> measured
  /\ exists n,
       outbox w' = [n]
       /\ n_body n
          = githubMarkdown (L := Plain.libs) (Overflow.headers ++ measured)
       /\ byteLength (n_body n) = 4262%Z
       /\ (byteLength (n_body n) > MAX_MESSAGE_BYTES)%Z.
Proof.
  intros measured w'.
  assert (Hfits : fits (L := Plain.libs) Plain.repo Overflow.release = true)
    by (vm_compute; reflexivity).
  split; [exact Hfits|]. split; [vm_compute; reflexivity|]. split.
  { intros H. apply (f_equal byteLength) in H. vm_compute in H. discriminate. }
  exists (release_ntfy (L := Plain.libs) Overflow.env Plain.repo
            Overflow.release).
  split; [vm_compute; reflexivity|]. split.
  - unfold release_ntfy, shown_body. cbn [n_body]. rewrite Hfits. reflexivity.
  - split; vm_compute; reflexivity.
Qed.

(** ** Runs on plain inputs *)

(** A downgrade: the store follows, nothing is posted, one info line. *)
Example downgrade_run :
  let release := Plain.release "v1.9.0" (lit "Rolled back.") false false in
  let env := Plain.env_with (Releases [release]) in
  let r := processRepoLine (L := Plain.libs) env Plain.line
             (Plain.world_with "v2.0.0") in
  fst r = Ok tt
  /\ map_to_list (db (snd r)) = [(Plain.repo, lit "v1.9.0")]
  /\ outbox (snd r) = []
  /\ map level (logs (snd r)) = [Debug; Info].
Proof. vm_compute. repeat split; reflexivity. Qed.

(** A repository seen for the first time: the version is stored, nothing
    is posted. *)
Example first_seen_run :
  let release := Plain.release "v2.3.1-rc.1" (lit "Notes.") false false in
  let env := Plain.env_with (Releases [release]) in
  let r := processRepoLine (L := Plain.libs) env Plain.line Plain.world0 in
  fst r = Ok tt
  /\ map_to_list (db (snd r)) = [(Plain.repo, lit "v2.3.1")]
  /\ outbox (snd r) = [].
Proof. vm_compute. repeat split; reflexivity. Qed.

(** One sweep over a list that names the same repository twice, once with
    the beta flag: one entry in the store, nothing posted, one timer. *)
Example two_lines_run :
  let release := Plain.release "v1.0.0" (lit "Notes.") false false in
  let env :=
    {| NTFY_URL := lit "https://ntfy.example/releases";
       NTFY_AUTH := None;
       CHECK_INTERVAL := lit "1h";
       REPO_FILE := lit "repos.txt";
       http_get := fun _ => Releases [release];
       http_post := fun _ => None;
       read_file := fun _ =>
         Some (lit "acme/widget" ++ [10] ++ lit "acme/widget:beta") |} in
  let r := checkReleases (L := Plain.libs) env Plain.world0 in
  fst r = Ok tt
  /\ map_to_list (db (snd r)) = [(Plain.repo, lit "v1.0.0")]
  /\ outbox (snd r) = []
  /\ timers (snd r) = [next_sweep 3600000].
Proof. vm_compute. repeat split; reflexivity. Qed.

(** The link of an issue is shown as its number. *)
Example issue_link_run :
  githubMarkdown (L := Plain.libs)
    (lit "See https://github.com/acme/widget/issues/42 by @bob")
  = lit "See [#42](https://github.com/acme/widget/issues/42) by[ @bob](https://github.com/bob)".
Proof. vm_compute. reflexivity. Qed.


Lemma processRepoLine_unparsable_witness :
  let release := Plain.release "nightly" (lit "Fixes.") false false in
  let env := Plain.env_with (Releases [release]) in
  let w := Plain.world_with "v1.0.0" in
  names (L := Plain.libs) Plain.line Plain.repo false
  /\ offers env Plain.repo false release
  /\ db w !! Plain.repo = Some (lit "v1.0.0")
  /\ @validate Plain.libs (current release) = false
  /\ db (snd (processRepoLine (L := Plain.libs) env Plain.line w)) = db w.
Proof.
  intros release env w.
  assert (Hn : names (L := Plain.libs) Plain.line Plain.repo false)
    by (split; vm_compute; reflexivity).
  assert (Ho : offers env Plain.repo false release)
    by (exists [release]; split; reflexivity).
  assert (E : db w !! Plain.repo = Some (lit "v1.0.0"))
    by (vm_compute; reflexivity).
  assert (Hv : @validate Plain.libs (current release) = false)
    by (vm_compute; reflexivity).
  split; [exact Hn|]. split; [exact Ho|]. split; [exact E|]. split; [exact Hv|].
  apply (processRepoLine_unparsable (L := Plain.libs)
           env Plain.line Plain.repo false release (lit "v1.0.0") w
           Hn Ho E eq_refl (or_intror Hv)).
Defined.

Lemma empty_version_never_notifies_witness :
  let release := Plain.release "nightly" (lit "Fixes.") false false in
  let env := Plain.env_with (Releases [release]) in
  names (L := Plain.libs) Plain.line Plain.repo false
  /\ unversioned env Plain.repo false
  /\ exists w',
       visits (L := Plain.libs) [env; env; env] Plain.line Plain.world0
       = (Ok tt, w')
       /\ outbox w' = []
       /\ db w' !! Plain.repo = Some (lit "").
Proof.
  intros release env.
  assert (Hn : names (L := Plain.libs) Plain.line Plain.repo false)
    by (split; vm_compute; reflexivity).
  assert (Hu : unversioned env Plain.repo false).
  { exists release. split; [exists [release]; split; reflexivity|].
    vm_compute. reflexivity. }
  split; [exact Hn|]. split; [exact Hu|].
  destruct (empty_version_never_notifies (L := Plain.libs)
              Plain.line Plain.repo false Hn) as (_ & _ & H).
  destruct (H [env; env; env] Plain.world0
              ltac:(repeat constructor; exact Hu)
              ltac:(left; vm_compute; reflexivity))
    as (w' & E & Hout & Hdb & _).
  exists w'. split; [exact E|]. split; [exact Hout|].
  apply Hdb. discriminate.
Defined.

Lemma processRepoLine_not_found_throws_witness :
  let env := Plain.env_with (Failed (Some 404%Z)) in
  names (L := Plain.libs) Plain.line Plain.repo false
  /\ http_get env (releases_url Plain.repo) = Failed (Some 404%Z)
  /\ fst (processRepoLine (L := Plain.libs) env Plain.line Plain.world0)
     = Throw find_of_undefined.
Proof.
  intros env.
  assert (Hn : names (L := Plain.libs) Plain.line Plain.repo false)
    by (split; vm_compute; reflexivity).
  split; [exact Hn|]. split; [reflexivity|].
  destruct (processRepoLine_not_found_throws (L := Plain.libs)
              env Plain.line Plain.repo false Plain.world0 Hn eq_refl)
    as [E _].
  rewrite E. reflexivity.
Defined.

Lemma parseLine_lowercases_repo_witness :
  (forall a b, same_letters a b ->
               @toLowerCase Plain.libs a = @toLowerCase Plain.libs b)
  /\ parseLine (L := Plain.libs) (lit "Acme/Widget : BETA")
     = parseLine (L := Plain.libs) (lit "acme/widget : beta")
  /\ parseLine (L := Plain.libs) (lit "Acme/Widget : BETA")
     = (Some (lit "acme/widget"), true).
Proof.
  split; [exact plain_lowercase_same|]. split.
  - destruct (parseLine_lowercases_repo (L := Plain.libs) plain_lowercase_same)
      as (_ & _ & H).
    apply H. vm_compute. repeat constructor.
  - vm_compute. reflexivity.
Defined.

(** * Further properties *)

(** ** The list of repositories *)

Lemma trimStart_starts (s : jsstring) : starts_space (trimStart s) = false.
Proof.
  induction s as [|c s IH]; [reflexivity|].
  cbn [trimStart]. destruct (is_space c) eqn:E; [exact IH | exact E].
Qed.

Lemma trimStart_suffix (s : jsstring) : exists ws, s = ws ++ trimStart s.
Proof.
  induction s as [|c s [ws IH]]; [now exists []|].
  cbn [trimStart]. destruct (is_space c).
  - exists (c :: ws). cbn [app]. now rewrite <- IH.
  - now exists [].
Qed.

Lemma last_rev_head (u : jsstring) : last (rev u) = head u.
Proof. destruct u as [|x u]; [reflexivity|]. cbn [rev]. apply last_snoc. Qed.

Lemma trimEnd_ends (t : jsstring) : ends_space (trimEnd t) = false.
Proof.
  unfold ends_space, trimEnd. rewrite last_rev_head.
  pose proof (trimStart_starts (rev t)) as H.
  now destruct (trimStart (rev t)).
Qed.

Lemma trimEnd_prefix (t : jsstring) : exists ws, t = trimEnd t ++ ws.
Proof.
  destruct (trimStart_suffix (rev t)) as [ws E]. exists (rev ws).
  unfold trimEnd. rewrite <- rev_app_distr, <- E. now rewrite rev_involutive.
Qed.

Lemma trim_clean (s : jsstring) : trim s <> [] -> clean_line (trim s).
Proof.
  intros Hne. split; [exact Hne|]. split; [|apply trimEnd_ends].
  unfold trim in *. destruct (trimEnd_prefix (trimStart s)) as [ws E].
  pose proof (trimStart_starts s) as Hs. rewrite E in Hs.
  now destruct (trimEnd (trimStart s)).
Qed.

(** X1. Every line [loadRepoLines] hands on is non-empty and has no white
    space at its start or its end, whatever the text of the file. *)
Theorem repoLines_clean (content : jsstring) :
  Forall clean_line (repoLines content).
Proof.
  unfold repoLines. induction (split 10 content) as [|l ls IH]; [constructor|].
  cbn [map]. rewrite filter_cons. destruct (decide _) as [Hlen|]; [|exact IH].
  constructor; [|exact IH]. apply trim_clean.
  intros E. rewrite E in Hlen. simpl in Hlen. lia.
Qed.

Lemma split_app (sep : N) (a b : jsstring) :
  split sep (a ++ sep :: b) = split sep a ++ split sep b.
Proof.
  induction a as [|c a IH].
  - cbn [app split]. now rewrite N.eqb_refl.
  - cbn [app split]. rewrite IH. destruct (c =? sep); [reflexivity|].
    pose proof (split_nonempty sep a) as Hne.
    now destruct (split sep a).
Qed.

(** X2. The file is read line by line: the entries of a text, a line feed
    and a second text are the entries of the first text followed by those
    of the second; an empty file has no entry. *)
Theorem repoLines_app (a b : jsstring) :
  repoLines (a ++ 10 :: b) = repoLines a ++ repoLines b
  /\ repoLines [] = [].
Proof.
  split; [|reflexivity].
  unfold repoLines. now rewrite split_app, map_app, filter_app.
Qed.

(** ** What a sweep does *)

Section SweepEffects.

Context {L : Libs}.

Implicit Types (env : Env) (w : World) (repo line : jsstring).

Lemma track_store env repo release w :
  db (snd (track env repo release w)) = db w
  \/ db (snd (track env repo release w)) = <[repo := current release]> (db w).
Proof.
  destruct (present (db w !! repo)) as [lastVersion|] eqn:Hp.
  2:{ rewrite (track_first_seen _ _ _ _ Hp). now right. }
  destruct (validate lastVersion) eqn:H1.
  2:{ rewrite (track_unparsable _ _ _ _ _ Hp (or_introl H1)). now left. }
  destruct (validate (current release)) eqn:H2.
  2:{ rewrite (track_unparsable _ _ _ _ _ Hp (or_intror H2)). now left. }
  destruct (compareVersions lastVersion (current release)) as [k|] eqn:Hk.
  2:{ unfold track. unfold_m. rewrite Hp. fold (current release).
      rewrite H1, H2, Hk. now left. }
  rewrite (track_compared _ _ _ _ _ _ Hp H1 H2 Hk).
  destruct (k =? -1)%Z.
  - destruct (announce_world env repo release w) as (w1 & -> & Hd & _).
    right. exact Hd.
  - destruct (k =? 1)%Z; [now right | now left].
Qed.

Lemma processRepoLine_store env line repo beta w :
  names line repo beta ->
  db (snd (processRepoLine env line w)) = db w
  \/ exists release,
       db (snd (processRepoLine env line w))
       = <[repo := current release]> (db w).
Proof.
  intros Hn. pose proof Hn as [Hp Ht].
  destruct (http_get env (releases_url repo)) as [releases | st] eqn:Hg.
  - destruct (latestRelease releases beta) as [release|] eqn:Hs.
    + rewrite (processRepoLine_selected env line repo beta release w Hn)
        by (exists releases; now split).
      destruct (track_store env repo release (arrived repo beta w)) as [E | E];
        [left | right; exists release]; exact E.
    + left. unfold processRepoLine. rewrite Hp. unfold present. rewrite Ht.
      unfold fetchReleases. unfold_m. rewrite Hg. unfold_m. now rewrite Hs.
  - left. unfold processRepoLine. rewrite Hp. unfold present. rewrite Ht.
    unfold fetchReleases. unfold_m. rewrite Hg. unfold_m.
    destruct st as [z|]; cbn [response_status]; cbv beta iota; [|reflexivity].
    destruct (z =? 404)%Z; [|reflexivity].
    unfold_m. unfold sendNtfy. unfold_m.
    destruct (http_post env _); reflexivity.
Qed.

Lemma repo_of_names line repo :
  repo_of line = Some repo -> exists beta, names line repo beta.
Proof.
  unfold repo_of, names, present. destruct (parseLine line) as [r beta].
  cbn [fst]. destruct r as [r|]; [|discriminate].
  destruct (truthy r) eqn:Ht; [|discriminate].
  intros [= ->]. now exists beta.
Qed.

Lemma caught_fields line (r : Result unit * World) :
  db (caught line r) = db (snd r)
  /\ fetched (caught line r) = fetched (snd r)
  /\ outbox (caught line r) = outbox (snd r).
Proof. destruct r as [[[]|e] w1]; repeat split. Qed.

(** What one line of the list does to the requests, the store and the
    outbox, whether its entry ends well or throws. *)
Lemma guarded_effect env line w :
  let w' := snd (guarded env line w) in
  match repo_of line with
  | None => fetched w' = fetched w /\ db w' = db w /\ outbox w' = outbox w
  | Some repo =>
      fetched w' = fetched w ++ [releases_url repo]
      /\ (db w' = db w
          \/ exists release, db w' = <[repo := current release]> (db w))
      /\ (outbox w' = outbox w
          \/ exists n, outbox w' = outbox w ++ [n] /\ about env [repo] n)
  end.
Proof.
  intros w'. subst w'. rewrite guarded_caught. cbn [snd].
  destruct (caught_fields line (processRepoLine env line w)) as (-> & -> & ->).
  destruct (repo_of line) as [repo|] eqn:Hr.
  - destruct (repo_of_names _ _ Hr) as [beta Hn].
    destruct (processRepoLine_frame env line repo beta w Hn)
      as [Hf [_ _ Ho]].
    split; [exact Hf|]. split; [exact (processRepoLine_store _ _ _ _ _ Hn)|].
    destruct Ho as [Ho | [Ho | [release Ho]]]; [now left | right ..].
    + eexists. split; [exact Ho|]. exists repo. split; [constructor | now left].
    + eexists. split; [exact Ho|]. exists repo.
      split; [constructor | right; now exists release].
  - rewrite (processRepoLine_skipped _ _ _ Hr). now repeat split.
Qed.

Lemma forEach_snd_cons env line lines w :
  snd (forEach env (line :: lines) w)
  = snd (forEach env lines (snd (guarded env line w))).
Proof. now rewrite forEach_cons. Qed.

Lemma about_mono env (repos repos' : list jsstring) (n : Ntfy) :
  (forall r, r ∈ repos -> r ∈ repos') -> about env repos n ->
  about env repos' n.
Proof. intros Hsub (repo & Hin & H). exists repo. split; auto. Qed.

Lemma named_cons line lines :
  named (line :: lines)
  = match repo_of line with
    | Some repo => repo :: named lines
    | None => named lines
    end.
Proof. reflexivity. Qed.

Lemma forEach_fetched env lines :
  forall w,
    fetched (snd (forEach env lines w))
    = fetched w ++ map releases_url (named lines).
Proof.
  induction lines as [|line lines IH]; intros w.
  - cbn. now rewrite app_nil_r.
  - rewrite forEach_snd_cons, IH, named_cons.
    pose proof (guarded_effect env line w) as H. cbv zeta in H.
    destruct (repo_of line) as [repo|].
    + destruct H as (-> & _). cbn [map]. now rewrite <- app_assoc.
    + now destruct H as (-> & _).
Qed.

Lemma forEach_outbox env lines :
  forall w, exists sent,
    outbox (snd (forEach env lines w)) = outbox w ++ sent
    /\ (length sent <= length (named lines))%nat
    /\ Forall (about env (named lines)) sent.
Proof.
  induction lines as [|line lines IH]; intros w.
  - exists []. cbn. rewrite app_nil_r. repeat split; [lia | constructor].
  - rewrite forEach_snd_cons, named_cons.
    destruct (IH (snd (guarded env line w))) as (sent & -> & Hlen & Hall).
    pose proof (guarded_effect env line w) as H. cbv zeta in H.
    destruct (repo_of line) as [repo|].
    + destruct H as (_ & _ & [-> | (n & -> & Hn)]).
      * exists sent. split; [reflexivity|]. split; [cbn [length]; lia|].
        eapply Forall_impl; [exact Hall|]. intros m. apply about_mono.
        intros r Hr. now constructor.
      * exists (n :: sent). split; [now rewrite <- app_assoc|].
        split; [cbn [length]; lia|]. constructor.
        -- eapply about_mono; [|exact Hn]. intros r Hr.
           apply list_elem_of_singleton in Hr. subst r. constructor.
        -- eapply Forall_impl; [exact Hall|]. intros m. apply about_mono.
           intros r Hr. now constructor.
    + destruct H as (_ & _ & ->). now exists sent.
Qed.

Lemma forEach_store env lines :
  forall w,
    (forall k, k ∉ named lines ->
               db (snd (forEach env lines w)) !! k = db w !! k)
    /\ (forall k, is_Some (db w !! k) ->
                  is_Some (db (snd (forEach env lines w)) !! k)).
Proof.
  induction lines as [|line lines IH]; intros w.
  - now split.
  - rewrite forEach_snd_cons, named_cons.
    destruct (IH (snd (guarded env line w))) as [IH1 IH2].
    pose proof (guarded_effect env line w) as H. cbv zeta in H.
    destruct (repo_of line) as [repo|].
    + destruct H as (_ & Hd & _). split.
      * intros k Hk. apply not_elem_of_cons in Hk as [Hne Hk].
        rewrite (IH1 k Hk).
        destruct Hd as [-> | (release & ->)]; [reflexivity|].
        now rewrite lookup_insert_ne.
      * intros k Hk. apply IH2.
        destruct Hd as [-> | (release & ->)]; [exact Hk|].
        rewrite lookup_insert_is_Some'. now right.
    + destruct H as (_ & Hd & _). rewrite Hd in IH1, IH2. now split.
Qed.

Lemma sanitizeVersion_normal (tag : jsstring) : normal (sanitizeVersion tag).
Proof.
  unfold sanitizeVersion, normal.
  destruct (search_version tag None) as
    [[-> _] | (pre & m & post & cs & _ & Hm & _ & -> & _)].
  - now left.
  - right. now exists m.
Qed.

Lemma forEach_normal env lines :
  forall w,
    map_Forall (fun _ v => normal v) (db w) ->
    map_Forall (fun _ v => normal v) (db (snd (forEach env lines w))).
Proof.
  induction lines as [|line lines IH]; intros w Hw; [exact Hw|].
  rewrite forEach_snd_cons. apply IH.
  pose proof (guarded_effect env line w) as H. cbv zeta in H.
  destruct (repo_of line) as [repo|].
  - destruct H as (_ & [-> | (release & ->)] & _); [exact Hw|].
    apply map_Forall_insert_2; [apply sanitizeVersion_normal | exact Hw].
  - destruct H as (_ & -> & _). exact Hw.
Qed.

(** A sweep whose file was read: the loop runs over its lines, then the
    timer is set, unless [ms] throws. *)
Lemma checkReleases_swept env content w :
  read_file env (REPO_FILE env) = Some content ->
  checkReleases env w
  = match ms (CHECK_INTERVAL env) with
    | MsNumber d => (Ok tt, scheduled (next_sweep d) (swept env content w))
    | MsUndefined =>
        (Ok tt, scheduled {| callback := CheckReleases; delay := None |}
                  (swept env content w))
    | MsThrows => (Throw MsError, swept env content w)
    end.
Proof.
  intros Hr. unfold checkReleases, loadRepoLines, swept, logged.
  rewrite Hr. unfold_m.
  match goal with
  | |- context [forEach env ?ls ?w0] =>
      destruct (forEach_total env ls w0) as (w1 & -> & _)
  end.
  cbv beta iota. cbn [snd]. destruct (ms (CHECK_INTERVAL env)); reflexivity.
Qed.

Lemma checkReleases_fields env content w :
  read_file env (REPO_FILE env) = Some content ->
  db (snd (checkReleases env w)) = db (swept env content w)
  /\ fetched (snd (checkReleases env w)) = fetched (swept env content w)
  /\ outbox (snd (checkReleases env w)) = outbox (swept env content w).
Proof.
  intros Hr. rewrite (checkReleases_swept _ _ _ Hr).
  destruct (ms (CHECK_INTERVAL env)); repeat split.
Qed.

(** X3. In a sweep that leaves no rejection unhandled, so that the runtime
    does not end the process, the hosting API is asked once for every line
    that names a repository, in the order of the list, and for nothing
    else: comment lines cause no request, and an entry that fails does not
    stop the requests of the lines after it. *)
Theorem checkReleases_requests env content w :
  read_file env (REPO_FILE env) = Some content ->
  exit_code (snd (checkReleases env w)) = None ->
  fetched (snd (checkReleases env w))
  = fetched w ++ map releases_url (named (repoLines content))
  /\ (forall line, startsWith (lit "#") line = true -> repo_of line = None).
Proof.
  intros Hr _. split.
  - destruct (checkReleases_fields _ _ w Hr) as (_ & -> & _).
    unfold swept. now rewrite forEach_fetched.
  - intros line H. unfold repo_of, parseLine. now rewrite H.
Qed.

(** X4. A sweep posts at most one notification for every line that names a
    repository, and each one it posts is about a repository of the list:
    that it was not found or that it has a new release. *)
Theorem checkReleases_notifications env content w :
  read_file env (REPO_FILE env) = Some content ->
  exists sent,
    outbox (snd (checkReleases env w)) = outbox w ++ sent
    /\ (length sent <= length (named (repoLines content)))%nat
    /\ Forall (about env (named (repoLines content))) sent.
Proof.
  intros Hr. destruct (checkReleases_fields _ _ w Hr) as (_ & _ & ->).
  unfold swept.
  match goal with
  | |- context [forEach env ?ls ?w0] =>
      destruct (forEach_outbox env ls w0) as (sent & -> & H)
  end.
  now exists sent.
Qed.

(** X5. A sweep leaves alone every entry of the store whose key no line
    names, and removes no entry: a key that had a version still has one. *)
Theorem checkReleases_store_frame env content w :
  read_file env (REPO_FILE env) = Some content ->
  (forall k, k ∉ named (repoLines content) ->
             db (snd (checkReleases env w)) !! k = db w !! k)
  /\ (forall k, is_Some (db w !! k) ->
                is_Some (db (snd (checkReleases env w)) !! k)).
Proof.
  intros Hr. destruct (checkReleases_fields _ _ w Hr) as (-> & _ & _).
  unfold swept.
  match goal with
  | |- context [forEach env ?ls ?w0] =>
      destruct (forEach_store env ls w0) as [H1 H2]
  end.
  split; [exact H1 | exact H2].
Qed.

(** X6. The store only ever holds normal forms: when every stored version
    is empty or ["v"] and a dotted numeric sequence, the same is true after
    a sweep, whatever tags the releases carry. *)
Theorem checkReleases_keeps_normal env content w :
  read_file env (REPO_FILE env) = Some content ->
  map_Forall (fun _ v => normal v) (db w) ->
  map_Forall (fun _ v => normal v) (db (snd (checkReleases env w))).
Proof.
  intros Hr Hw. destruct (checkReleases_fields _ _ w Hr) as (-> & _ & _).
  unfold swept. now apply forEach_normal.
Qed.

End SweepEffects.

(** ** More on one entry *)

Section EntryEdges.

Context {L : Libs}.

Implicit Types (env : Env) (w : World) (repo line : jsstring).

(** Once the store holds the version of the selected release, a visit
    changes neither the store nor the outbox. *)
Lemma track_settled env repo release w :
  (forall v, validate v = true -> compareVersions v v = Some 0%Z) ->
  db w !! repo = Some (current release) ->
  db (snd (track env repo release w)) = db w
  /\ outbox (snd (track env repo release w)) = outbox w.
Proof.
  intros Hrefl Hdb.
  destruct (truthy (current release)) eqn:Ht.
  - assert (Hp : present (db w !! repo) = Some (current release))
      by (rewrite Hdb; unfold present; now rewrite Ht).
    destruct (validate (current release)) eqn:Hv.
    + rewrite (track_compared _ _ _ _ 0%Z _ Hp Hv Hv (Hrefl _ Hv)).
      now split.
    + rewrite (track_unparsable _ _ _ _ _ Hp (or_introl Hv)). now split.
  - assert (Hp : present (db w !! repo) = None)
      by (rewrite Hdb; unfold present; now rewrite Ht).
    rewrite (track_first_seen _ _ _ _ Hp). cbn [snd stored db outbox].
    split; [|reflexivity]. now apply insert_id.
Qed.

Lemma second_visit env line repo beta release w :
  names line repo beta -> offers env repo beta release ->
  (forall v, validate v = true -> compareVersions v v = Some 0%Z) ->
  db (snd (processRepoLine env line (snd (processRepoLine env line w))))
  = db (snd (processRepoLine env line w))
  /\ outbox (snd (processRepoLine env line (snd (processRepoLine env line w))))
     = outbox (snd (processRepoLine env line w)).
Proof.
  intros Hn Ho Hrefl.
  rewrite !(processRepoLine_selected _ _ _ _ _ _ Hn Ho).
  set (a := arrived repo beta w).
  assert (Hsettled : forall w1,
            db w1 !! repo = Some (current release) ->
            db (snd (track env repo release (arrived repo beta w1))) = db w1
            /\ outbox (snd (track env repo release (arrived repo beta w1)))
               = outbox w1).
  { intros w1 H1. now apply (track_settled env repo release
                               (arrived repo beta w1) Hrefl). }
  destruct (present (db a !! repo)) as [lastVersion|] eqn:Hp.
  2:{ rewrite (track_first_seen _ _ _ a Hp). cbn [snd]. apply Hsettled.
      cbn [stored db]. apply lookup_insert_eq. }
  assert (Hsame : forall w1,
            db w1 = db a ->
            present (db (arrived repo beta w1) !! repo) = Some lastVersion).
  { intros w1 E. cbn [arrived requested logged add_log db]. now rewrite E. }
  destruct (validate lastVersion) eqn:H1.
  2:{ rewrite (track_unparsable _ _ _ _ a Hp (or_introl H1)). cbn [snd].
      match goal with
      | |- context [arrived repo beta ?w1] =>
          rewrite (track_unparsable _ _ _ lastVersion _
                     (Hsame w1 eq_refl) (or_introl H1))
      end.
      now split. }
  destruct (validate (current release)) eqn:H2.
  2:{ rewrite (track_unparsable _ _ _ _ a Hp (or_intror H2)). cbn [snd].
      match goal with
      | |- context [arrived repo beta ?w1] =>
          rewrite (track_unparsable _ _ _ lastVersion _
                     (Hsame w1 eq_refl) (or_intror H2))
      end.
      now split. }
  destruct (compareVersions lastVersion (current release)) as [k|] eqn:Hk.
  2:{ assert (E : forall w0, present (db w0 !! repo) = Some lastVersion ->
                   track env repo release w0 = (Throw VersionError, w0)).
      { intros w0 Hp0. unfold track. unfold_m. rewrite Hp0.
        fold (current release). now rewrite H1, H2, Hk. }
      rewrite (E a Hp). cbn [snd]. rewrite (E _ (Hsame a eq_refl)).
      now split. }
  rewrite (track_compared _ _ _ _ _ a Hp H1 H2 Hk).
  destruct (k =? -1)%Z eqn:Hnew.
  - destruct (announce_world env repo release a) as (w1 & -> & Hd & _).
    apply Hsettled. cbn [posted db]. rewrite Hd. apply lookup_insert_eq.
  - destruct (k =? 1)%Z eqn:Hold; cbn [snd].
    + apply Hsettled. cbn [stored db]. apply lookup_insert_eq.
    + match goal with
      | |- context [arrived repo beta ?w1] =>
          rewrite (track_compared _ _ _ lastVersion k _
                     (Hsame w1 eq_refl) H1 H2 Hk)
      end.
      rewrite Hnew, Hold. now split.
Qed.

(** X7. Polling again without a change upstream is silent: when the
    library finds a valid version equal to itself, a second visit of a
    line, with the same release selected, leaves the store and the outbox
    as the first visit left them, whatever the first visit did. *)
Theorem repoll_is_silent env line repo beta release w :
  names line repo beta -> offers env repo beta release ->
  (forall v, validate v = true -> compareVersions v v = Some 0%Z) ->
  let w1 := snd (processRepoLine env line w) in
  let w2 := snd (processRepoLine env line w1) in
  db w2 = db w1 /\ outbox w2 = outbox w1.
Proof. intros Hn Ho Hrefl. exact (second_visit _ _ _ _ _ _ Hn Ho Hrefl). Qed.

(** X8. When the notification of a new release cannot be posted, the entry
    throws, but the store already holds the new version: the next visit
    finds nothing new and posts nothing, so the release is never
    announced. *)
Theorem failed_post_is_not_retried
    env line repo beta release lastVersion e w :
  names line repo beta -> offers env repo beta release ->
  (forall v, validate v = true -> compareVersions v v = Some 0%Z) ->
  db w !! repo = Some lastVersion -> truthy lastVersion = true ->
  validate lastVersion = true -> validate (current release) = true ->
  compareVersions lastVersion (current release) = Some (-1)%Z ->
  http_post env (release_ntfy env repo release) = Some e ->
  let r1 := processRepoLine env line w in
  fst r1 = Throw e
  /\ db (snd r1) !! repo = Some (current release)
  /\ outbox (snd r1) = outbox w ++ [release_ntfy env repo release]
  /\ outbox (snd (processRepoLine env line (snd r1))) = outbox (snd r1).
Proof.
  intros Hn Ho Hrefl Hdb Ht H1 H2 Hk Hpost r1.
  destruct (second_visit env line repo beta release w Hn Ho Hrefl)
    as [_ Hsecond].
  subst r1. split; [|split; [|split; [|exact Hsecond]]].
  all: rewrite (processRepoLine_selected _ _ _ _ _ _ Hn Ho).
  all: assert (Hp : present (db (arrived repo beta w) !! repo)
                    = Some lastVersion)
         by (cbn [arrived requested logged add_log db]; rewrite Hdb;
             unfold present; now rewrite Ht).
  all: rewrite (track_compared _ _ _ _ _ _ Hp H1 H2 Hk).
  all: change (-1 =? -1)%Z with true; cbv beta iota.
  all: rewrite announce_eq; unfold axios_post; rewrite Hpost.
  - reflexivity.
  - cbn [snd posted db]. unfold before_post.
    destruct (fits repo release); cbn [logged add_log stored db];
      apply lookup_insert_eq.
  - cbn [snd posted outbox]. unfold before_post.
    destruct (fits repo release); reflexivity.
Qed.

(** X9. A failure of the request other than a 404 ends the entry at once:
    the error of the request is thrown again when it carries a status, a
    [TypeError] takes its place when there was no response at all; nothing
    is logged by [fetchReleases], posted or stored, and the loop logs the
    failure of the line. *)
Theorem processRepoLine_fetch_failure env line repo beta st w :
  names line repo beta ->
  http_get env (releases_url repo) = Failed st -> st <> Some 404%Z ->
  processRepoLine env line w
  = (Throw (fetch_failure st), arrived repo beta w)
  /\ guarded env line w
     = (Ok tt, add_log {| level := Error;
                          text := lit "Failed to process line " ++ line;
                          cause := Some (fetch_failure st) |}
                 (arrived repo beta w)).
Proof.
  intros [Hp Ht] Hg Hst.
  assert (E : processRepoLine env line w
              = (Throw (fetch_failure st), arrived repo beta w)).
  { unfold processRepoLine. rewrite Hp. unfold present. rewrite Ht.
    unfold fetchReleases. unfold_m. rewrite Hg. unfold_m.
    destruct st as [z|]; cbn [response_status fetch_failure]; cbv beta iota;
      [|reflexivity].
    destruct (z =? 404)%Z eqn:Hz; [|reflexivity].
    apply Z.eqb_eq in Hz. now subst z. }
  split; [exact E|]. rewrite guarded_caught, E. reflexivity.
Qed.

Lemma find_none {A : Type} (P : A -> bool) (l : list A) :
  Forall (fun x => P x = false) l -> find P l = None.
Proof. induction 1 as [|x l Hx _ IH]; simpl; [reflexivity|]. now rewrite Hx. Qed.

(** X10. When the hosting API answers with no release, or with drafts
    only, the entry ends after an info line: nothing is posted and the
    store is as it was, with or without the beta flag. *)
Theorem processRepoLine_no_release env line repo beta releases w :
  names line repo beta ->
  http_get env (releases_url repo) = Releases releases ->
  Forall (fun release => draft release = true) releases ->
  processRepoLine env line w
  = (Ok tt, logged Info (lit "No release found for " ++ repo
                           ++ lit " - beta: " ++ str_of_bool beta)
              (arrived repo beta w)).
Proof.
  intros [Hp Ht] Hg Hd.
  assert (Hs : latestRelease releases beta = None).
  { unfold latestRelease.
    rewrite (find_none (wanted beta)), find_none; [reflexivity | |].
    - eapply Forall_impl; [exact Hd|]. intros x ->. reflexivity.
    - eapply Forall_impl; [exact Hd|]. intros x Hx. unfold wanted.
      now rewrite Hx. }
  unfold processRepoLine. rewrite Hp. unfold present. rewrite Ht.
  unfold fetchReleases. unfold_m. rewrite Hg. unfold_m. now rewrite Hs.
Qed.

(** The loop of [checkReleases], with its [try] and [catch], ends well and
    sets no timer. *)
Lemma checkReleases_body env w :
  exists w1,
    timers w1 = timers w
    /\ checkReleases env w
       = match ms (CHECK_INTERVAL env) with
         | MsNumber d => (Ok tt, scheduled (next_sweep d) w1)
         | MsUndefined =>
             (Ok tt, scheduled {| callback := CheckReleases; delay := None |}
                       w1)
         | MsThrows => (Throw MsError, w1)
         end.
Proof.
  destruct (read_file env (REPO_FILE env)) as [content|] eqn:Hr.
  - exists (swept env content w). split.
    + unfold swept.
      match goal with
      | |- context [forEach env ?ls ?w0] =>
          destruct (forEach_total env ls w0) as (w1 & -> & Ht)
      end.
      exact Ht.
    + now apply checkReleases_swept.
  - eexists. split; [|unfold checkReleases, loadRepoLines; rewrite Hr; unfold_m;
                      destruct (ms (CHECK_INTERVAL env)); reflexivity].
    reflexivity.
Qed.

(** X11. The interval is asked of [ms] after the [try] of the sweep.  In a
    sweep whose file was read and that leaves no rejection unhandled, the
    loop has run over the whole list when [ms] is called: with a number the
    timer of the next sweep is set with that delay, when [ms] does not
    understand the interval the timer is set without a delay, and when [ms]
    throws, [checkReleases] throws in the world the loop has left, without
    a timer, so that no further sweep takes place. *)
Theorem checkReleases_next_sweep env content w :
  read_file env (REPO_FILE env) = Some content ->
  exit_code (swept env content w) = None ->
  checkReleases env w
  = match ms (CHECK_INTERVAL env) with
    | MsNumber d => (Ok tt, scheduled (next_sweep d) (swept env content w))
    | MsUndefined =>
        (Ok tt, scheduled {| callback := CheckReleases; delay := None |}
                  (swept env content w))
    | MsThrows => (Throw MsError, swept env content w)
    end
  /\ fetched (swept env content w)
     = fetched w ++ map releases_url (named (repoLines content))
  /\ timers (swept env content w) = timers w.
Proof.
  intros Hr _. split; [now apply checkReleases_swept|]. unfold swept. split.
  - now rewrite forEach_fetched.
  - match goal with
    | |- context [forEach env ?ls ?w0] =>
        destruct (forEach_total env ls w0) as (w1 & -> & Ht)
    end.
    exact Ht.
Qed.

End EntryEdges.

(** ** The rewriting of links *)

Lemma startsWith_app_inv (p s : jsstring) :
  startsWith p s = true -> exists post, s = p ++ post.
Proof.
  revert s. induction p as [|a p IH]; intros s H; [now exists s|].
  destruct s as [|b s]; [discriminate|]. cbn [startsWith] in H.
  apply andb_true_iff in H as [Hab Hs]. apply N.eqb_eq in Hab. subst b.
  destruct (IH s Hs) as [post ->]. now exists post.
Qed.

Lemma run_Str_fail (l s : jsstring) :
  startsWith l s = false ->
  forall b c, run (Str l) (MState b s c) = [].
Proof.
  revert s. induction l as [|a l IH]; intros s H b c; [discriminate|].
  destruct s as [|x s]; [now destruct l|].
  cbn [startsWith] in H.
  destruct l as [|a2 l].
  - cbn [Str]. unfold Char. cbn [run rest]. cbn [startsWith] in H.
    rewrite andb_true_r in H. now rewrite H.
  - change (Str (a :: a2 :: l)) with (Seq (Char a) (Str (a2 :: l))).
    unfold Char. cbn [run rest caps]. destruct (a =? x); [|reflexivity].
    cbn [andb] in H. cbn [flat_map]. now rewrite (IH s H).
Qed.

Lemma exec_at_prefixed (p : jsstring) (r2 : regex) (prev : option N)
    (s : jsstring) :
  startsWith p s = false -> exec_at (Seq (Str p) r2) prev s = None.
Proof.
  intros H. unfold exec_at. cbn [run]. now rewrite (run_Str_fail p s H).
Qed.

Lemma replace_no_match (r : regex)
    (f : jsstring -> list (nat * jsstring) -> jsstring) (s : jsstring) :
  (forall pre suf prev, s = pre ++ suf -> exec_at r prev suf = None) ->
  forall prev, replace_from r f prev s O = s.
Proof.
  induction s as [|c s IH]; intros H prev; cbn [replace_from].
  - now rewrite (H [] [] prev eq_refl).
  - rewrite (H [] (c :: s) prev eq_refl). f_equal. apply IH.
    intros pre suf p ->. now apply (H (c :: pre) suf p).
Qed.

Lemma replace_prefixed_plain (p : jsstring) (r2 : regex)
    (f : jsstring -> list (nat * jsstring) -> jsstring) (text : jsstring) :
  ~ occurs p text -> replace (Seq (Str p) r2) f text = text.
Proof.
  intros Hno. apply replace_no_match. intros pre suf prev ->.
  apply exec_at_prefixed. destruct (startsWith p suf) eqn:E; [|reflexivity].
  destruct (startsWith_app_inv p suf E) as [post ->].
  exfalso. apply Hno. now exists pre, post.
Qed.

Lemma run_at_fail (r : regex) (st : mstate) :
  match rest st with x :: _ => (x =? 64) = false | [] => True end ->
  run (Seq (Char 64) r) st = [].
Proof.
  intros H. unfold Char. cbn [run]. destruct (rest st) as [|x s]; [reflexivity|].
  rewrite N.eqb_sym, H. reflexivity.
Qed.

Lemma exec_at_mention_free (prev : option N) (s : jsstring) :
  mention_free prev s = true -> exec_at mention_re prev s = None.
Proof.
  intros H. unfold exec_at, mention_re.
  set (tail := Seq (Group 2 (Plus (Class is_user_char))) WordBoundary).
  change (run (Seq (Group 1 (Alt Bos (Class is_space))) (Seq (Char 64) tail))
            (MState prev s []))
    with (flat_map (run (Seq (Char 64) tail))
            (run (Group 1 (Alt Bos (Class is_space))) (MState prev s []))).
  rewrite flat_map_nil; [reflexivity|].
  cbn [run before rest caps]. rewrite map_app. apply Forall_app. split.
  - destruct prev as [p|]; [constructor|]. cbn [map].
    constructor; [|constructor]. apply run_at_fail. cbn [rest].
    destruct s as [|c s']; [exact I|]. cbn [mention_free] in H.
    apply andb_true_iff in H as [H _]. rewrite andb_true_r in H.
    now apply negb_true_iff in H.
  - destruct s as [|c s']; [constructor|].
    destruct (is_space c) eqn:Hc; [|constructor]. cbn [map].
    constructor; [|constructor]. apply run_at_fail. cbn [rest].
    cbn [mention_free] in H. apply andb_true_iff in H as [_ H].
    destruct s' as [|c2 s'']; [exact I|]. cbn [mention_free] in H.
    apply andb_true_iff in H as [H _]. rewrite Hc, andb_true_r in H.
    now apply negb_true_iff in H.
Qed.

Lemma replace_mention_free
    (f : jsstring -> list (nat * jsstring) -> jsstring) (s : jsstring) :
  forall prev,
    mention_free prev s = true -> replace_from mention_re f prev s O = s.
Proof.
  induction s as [|c s IH]; intros prev H; cbn [replace_from].
  - now rewrite (exec_at_mention_free prev [] H).
  - rewrite (exec_at_mention_free prev (c :: s) H). f_equal. apply IH.
    cbn [mention_free] in H. now apply andb_true_iff in H as [_ H].
Qed.

Section Links.

Context {L : Libs}.

(** X12. A text in which the address of the hosting platform does not
    occur, and in which no [@] stands at the start or after white space, is
    left alone by the three rewritings: only the emoji expansion applies.
    In particular an [@] inside a word, as in a mail address, is not made a
    mention. *)
Theorem githubMarkdown_plain (text : jsstring) :
  ~ occurs github_prefix text -> mention_free None text = true ->
  githubMarkdown text = emojify text.
Proof.
  intros Hno Hm. unfold githubMarkdown, rewriteIssues, rewriteMentions,
    rewriteCompare, issue_re, compare_re.
  change (lit "https://github.com/") with github_prefix.
  rewrite (replace_prefixed_plain github_prefix _ _ text Hno).
  unfold replace at 2. rewrite (replace_mention_free _ text None Hm).
  now rewrite (replace_prefixed_plain github_prefix _ _ text Hno).
Qed.

End Links.

(** *** The first match of a sequence *)

Lemma first_char (x : N) (b : option N) (s : jsstring)
    (c : list (nat * jsstring)) :
  first_to (Char x) (MState b (x :: s) c) s c.
Proof.
  exists (Some x), []. unfold Char. cbn [run rest caps].
  now rewrite N.eqb_refl.
Qed.

Lemma first_seq (r1 r2 : regex) (st : mstate) (s1 s2 : jsstring)
    (c1 c2 : list (nat * jsstring)) :
  first_to r1 st s1 c1 ->
  (forall b, first_to r2 (MState b s1 c1) s2 c2) ->
  first_to (Seq r1 r2) st s2 c2.
Proof.
  intros (b1 & tl1 & E1) H2. destruct (H2 b1) as (b2 & tl2 & E2).
  exists b2, (tl2 ++ flat_map (run r2) tl1).
  cbn [run]. rewrite E1. cbn [flat_map]. now rewrite E2.
Qed.

Lemma first_str (l : jsstring) :
  l <> [] ->
  forall b s c, first_to (Str l) (MState b (l ++ s) c) s c.
Proof.
  induction l as [|a l IH]; intros Hne b s c; [easy|].
  destruct l as [|a2 l].
  - apply first_char.
  - change (Str (a :: a2 :: l)) with (Seq (Char a) (Str (a2 :: l))).
    eapply first_seq; [apply first_char|].
    intros b'. now apply IH.
Qed.

Lemma plus_class_longest (p : N -> bool) (D r : jsstring)
    (c : list (nat * jsstring)) :
  Forall (fun x => p x = true) D -> D <> [] ->
  match r with x :: _ => p x = false | [] => True end ->
  forall b, exists b' tl, plus_class p b (D ++ r) c = MState b' r c :: tl.
Proof.
  intros HD. induction HD as [|x D' Hx HD' IH]; intros Hne Hr b; [easy|].
  cbn [app plus_class]. rewrite Hx.
  destruct D' as [|y D''].
  - cbn [app]. exists (Some x), [].
    destruct r as [|z r']; [reflexivity|]. cbn [plus_class]. now rewrite Hr.
  - destruct (IH ltac:(discriminate) Hr (Some x)) as (b' & tl & E).
    rewrite E. now eexists _, _.
Qed.

Lemma first_plus_class (p : N -> bool) (D r : jsstring) :
  Forall (fun x => p x = true) D -> D <> [] ->
  match r with x :: _ => p x = false | [] => True end ->
  forall b c, first_to (Plus (Class p)) (MState b (D ++ r) c) r c.
Proof.
  intros HD Hne Hr b c. unfold first_to.
  change (run (Plus (Class p)) (MState b (D ++ r) c))
    with (iterate (run (Class p)) (S (length (D ++ r))) (MState b (D ++ r) c)).
  rewrite iterate_class. now apply plus_class_longest.
Qed.

Lemma first_group (i : nat) (r : regex) (D s' : jsstring) (b : option N)
    (c c' : list (nat * jsstring)) :
  first_to r (MState b (D ++ s') c) s' c' ->
  first_to (Group i r) (MState b (D ++ s') c) s' ((i, D) :: c').
Proof.
  intros (b' & tl & E). unfold first_to. cbn [run]. rewrite E.
  cbn [map before rest caps].
  eexists _, _. f_equal. f_equal. f_equal. f_equal.
  unfold consumed. cbn [rest]. rewrite length_app.
  replace (length D + length s' - length s')%nat with (length D) by lia.
  apply take_app_length.
Qed.

Lemma first_alt_l (r1 r2 : regex) (st : mstate) (s' : jsstring)
    (c' : list (nat * jsstring)) :
  first_to r1 st s' c' -> first_to (Alt r1 r2) st s' c'.
Proof.
  intros (b' & tl & E). unfold first_to. cbn [run]. rewrite E.
  now eexists _, _.
Qed.

Lemma first_alt_r (r1 r2 : regex) (st : mstate) (s' : jsstring)
    (c' : list (nat * jsstring)) :
  run r1 st = [] -> first_to r2 st s' c' -> first_to (Alt r1 r2) st s' c'.
Proof.
  intros E1 (b' & tl & E). unfold first_to. cbn [run]. rewrite E1, E.
  now eexists _, _.
Qed.

Lemma exec_at_first (r : regex) (prev : option N) (m : jsstring)
    (cs : list (nat * jsstring)) :
  first_to r (MState prev m []) [] cs -> exec_at r prev m = Some (m, cs).
Proof.
  intros (b' & tl & E). unfold exec_at. rewrite E. cbn [rest caps length].
  now rewrite Nat.sub_0_r, firstn_all.
Qed.

Lemma replace_skip_all (r : regex)
    (f : jsstring -> list (nat * jsstring) -> jsstring) (s : jsstring) :
  (forall prev, exec_at r prev [] = None) ->
  forall prev, replace_from r f prev s (length s) = [].
Proof.
  intros Hend. induction s as [|c s IH]; intros prev.
  - cbn [length replace_from]. now rewrite Hend.
  - cbn [length replace_from]. apply IH.
Qed.

(** A text that is one match from its start to its end is replaced by what
    the callback makes of that match. *)
Lemma replace_whole (r : regex)
    (f : jsstring -> list (nat * jsstring) -> jsstring) (m : jsstring)
    (cs : list (nat * jsstring)) :
  m <> [] -> (forall prev, exec_at r prev [] = None) ->
  first_to r (MState None m []) [] cs ->
  replace r f m = f m cs.
Proof.
  intros Hne Hend H. unfold replace.
  destruct m as [|c m']; [easy|].
  cbn [replace_from]. rewrite (exec_at_first _ _ _ _ H).
  cbn [length]. rewrite (replace_skip_all r f m' Hend). apply app_nil_r.
Qed.

Lemma issue_re_first (owner repo type num : jsstring) :
  Name owner -> Name repo -> type = lit "issues" \/ type = lit "pull" ->
  Digits num ->
  first_to issue_re (MState None (issue_url owner repo type num) []) []
    [(4%nat, num); (3%nat, type); (2%nat, repo); (1%nat, owner)].
Proof.
  intros [Ho1 Ho2] [Hr1 Hr2] Ht [Hn1 Hn2].
  unfold issue_re, issue_url.
  change (lit "https://github.com/") with github_prefix.
  eapply first_seq; [apply first_str; discriminate|]. intros b1.
  eapply first_seq;
    [apply first_group, first_plus_class; [exact Ho2 | exact Ho1 | reflexivity]|].
  intros b2. eapply first_seq; [apply first_char|]. intros b3.
  eapply first_seq;
    [apply first_group, first_plus_class; [exact Hr2 | exact Hr1 | reflexivity]|].
  intros b4. eapply first_seq; [apply first_char|]. intros b5.
  eapply first_seq.
  { apply first_group. destruct Ht as [-> | ->].
    - apply first_alt_l, first_str. discriminate.
    - apply first_alt_r; [now apply run_Str_fail|].
      apply first_str. discriminate. }
  intros b6. eapply first_seq; [apply first_char|]. intros b7.
  rewrite <- (app_nil_r num) at 1.
  apply first_group. unfold digits. now apply first_plus_class.
Qed.

(** X13. The address of an issue or of a pull request, standing alone, is
    rewritten into a link whose text is the number after a [#] and whose
    target is the address, for every owner, repository and number. *)
Theorem rewriteIssues_link (owner repo type num : jsstring) :
  Name owner -> Name repo -> type = lit "issues" \/ type = lit "pull" ->
  Digits num ->
  rewriteIssues (issue_url owner repo type num)
  = lit "[#" ++ num ++ lit "](" ++ issue_url owner repo type num ++ lit ")".
Proof.
  intros Ho Hr Ht Hn. unfold rewriteIssues.
  rewrite (replace_whole issue_re _ (issue_url owner repo type num)
             [(4%nat, num); (3%nat, type); (2%nat, repo); (1%nat, owner)]).
  - cbn [group find fst snd Nat.eqb]. unfold issue_url.
    change (lit "](https://github.com/") with (lit "](" ++ github_prefix).
    change (lit "/") with [47]. cbn [app].
    repeat first [rewrite <- app_assoc | rewrite <- app_comm_cons].
    reflexivity.
  - unfold issue_url, github_prefix. discriminate.
  - intros prev. now apply exec_at_prefixed.
  - now apply issue_re_first.
Qed.

(** *** A mention *)

Lemma first_at_seq (r1 r2 : regex) (st st1 st2 : mstate) :
  first_at r1 st st1 -> first_at r2 st1 st2 -> first_at (Seq r1 r2) st st2.
Proof.
  intros (tl1 & E1) (tl2 & E2). exists (tl2 ++ flat_map (run r2) tl1).
  cbn [run]. rewrite E1. cbn [flat_map]. now rewrite E2.
Qed.

Lemma plus_class_whole (p : N -> bool) (init : jsstring) (x : N)
    (c : list (nat * jsstring)) :
  Forall (fun y => p y = true) (init ++ [x]) ->
  forall b, exists tl,
    plus_class p b (init ++ [x]) c = MState (Some x) [] c :: tl.
Proof.
  induction init as [|y init IH]; intros H b.
  - cbn [app plus_class]. inversion H as [|? ? Hx _]; subst. rewrite Hx.
    now exists [].
  - cbn [app plus_class]. inversion H as [|? ? Hy H']; subst. rewrite Hy.
    destruct (IH H' (Some y)) as (tl & ->). now eexists.
Qed.

Lemma mention_re_first (user : jsstring) :
  UserName user ->
  first_at mention_re (MState None (64 :: user) [])
    (MState (last user) [] [(2%nat, user); (1%nat, [])]).
Proof.
  intros (Hall & init & x & -> & Hx). unfold mention_re.
  rewrite last_snoc.
  apply first_at_seq with (st1 := MState None (64 :: init ++ [x]) [(1%nat, [])]).
  { exists []. cbn [run before rest caps map app]. unfold consumed.
    cbn [rest]. now rewrite Nat.sub_diag. }
  apply first_at_seq
    with (st1 := MState (Some 64) (init ++ [x]) [(1%nat, [])]).
  { exists []. unfold Char. cbn [run rest caps]. reflexivity. }
  apply first_at_seq
    with (st1 := MState (Some x) [] [(2%nat, init ++ [x]); (1%nat, [])]).
  - unfold first_at.
    change (run (Group 2 (Plus (Class is_user_char)))
              (MState (Some 64) (init ++ [x]) [(1%nat, [])]))
      with (map (fun st' =>
                   MState (before st') (rest st')
                     ((2%nat, consumed
                                (MState (Some 64) (init ++ [x]) [(1%nat, [])])
                                st') :: caps st'))
              (iterate (run (Class is_user_char))
                 (S (length (init ++ [x])))
                 (MState (Some 64) (init ++ [x]) [(1%nat, [])]))).
    rewrite iterate_class.
    destruct (plus_class_whole is_user_char init x [(1%nat, [])] Hall (Some 64))
      as (tl & ->).
    cbn [map before rest caps]. eexists. f_equal. f_equal. f_equal. f_equal.
    unfold consumed. cbn [rest length]. rewrite Nat.sub_0_r. apply firstn_all.
  - exists []. cbn [run]. unfold word_before, word_after. cbn [before rest].
    unfold is_word. now rewrite Hx.
Qed.

(** X14. A mention that is the whole text is rewritten into a link to the
    profile of the user, whose text is the mention itself. *)
Theorem rewriteMentions_link (user : jsstring) :
  UserName user ->
  rewriteMentions (64 :: user)
  = lit "[@" ++ user ++ lit "](https://github.com/" ++ user ++ lit ")".
Proof.
  intros Hu. unfold rewriteMentions, replace.
  assert (E : exec_at mention_re None (64 :: user)
              = Some (64 :: user, [(2%nat, user); (1%nat, [])])).
  { destruct (mention_re_first user Hu) as (tl & E).
    unfold exec_at. rewrite E. cbn [rest caps].
    change (length (@nil N)) with O. now rewrite Nat.sub_0_r, firstn_all. }
  cbn [replace_from]. rewrite E. cbn [length].
  replace (replace_from mention_re _ (Some 64) user (length user)) with (@nil N).
  - cbn [group find fst snd Nat.eqb]. rewrite app_nil_r. reflexivity.
  - symmetry. apply replace_skip_all. intros prev.
    apply exec_at_mention_free. reflexivity.
Qed.

(** ** The budget before the links are rewritten *)

Lemma byteLength_low (d : N) (s : jsstring) :
  is_low_surrogate d = true -> byteLength (d :: s) = (3 + byteLength s)%Z.
Proof.
  unfold is_low_surrogate, between. intros H.
  apply andb_true_iff in H as [H1 H2]. apply N.leb_le in H1.
  cbn [byteLength].
  replace (d <? 128) with false by (symmetry; apply N.ltb_ge; lia).
  replace (d <? 2048) with false by (symmetry; apply N.ltb_ge; lia).
  unfold is_high_surrogate, between.
  replace (d <=? 56319) with false by (symmetry; apply N.leb_gt; lia).
  now rewrite andb_false_r.
Qed.

Lemma byteLength_app_le (a b : jsstring) :
  (byteLength (a ++ b) <= byteLength a + byteLength b)%Z.
Proof.
  remember (length a) as n eqn:Hn.
  revert a Hn. induction n as [n IH] using lt_wf_ind. intros a Hn.
  destruct a as [|c [|d a']].
  - cbn [app byteLength]. lia.
  - cbn [app]. destruct b as [|e b'].
    + cbn [byteLength]. destruct (c <? 128); [lia|].
      destruct (c <? 2048); [lia|]. destruct (is_high_surrogate c); lia.
    + change (byteLength [c]) with
        (if c <? 128 then 1%Z else if c <? 2048 then 2%Z
         else if is_high_surrogate c then 3%Z else 3%Z).
      change (byteLength (c :: e :: b')) with
        (if c <? 128 then (1 + byteLength (e :: b'))%Z
         else if c <? 2048 then (2 + byteLength (e :: b'))%Z
         else if is_high_surrogate c then
           if is_low_surrogate e then (4 + byteLength b')%Z
           else (3 + byteLength (e :: b'))%Z
         else (3 + byteLength (e :: b'))%Z).
      destruct (is_low_surrogate e) eqn:He.
      * rewrite (byteLength_low e b' He).
        destruct (c <? 128); [lia|]. destruct (c <? 2048); [lia|].
        destruct (is_high_surrogate c); lia.
      * destruct (c <? 128); [lia|]. destruct (c <? 2048); [lia|].
        destruct (is_high_surrogate c); lia.
  - assert (H1 : (byteLength ((d :: a') ++ b)
                  <= byteLength (d :: a') + byteLength b)%Z).
    { apply (IH (length (d :: a'))); [subst n; simpl; lia | reflexivity]. }
    assert (H2 : (byteLength (a' ++ b) <= byteLength a' + byteLength b)%Z).
    { apply (IH (length a')); [subst n; simpl; lia | reflexivity]. }
    change ((c :: d :: a') ++ b) with (c :: (d :: a') ++ b).
    change (byteLength (c :: (d :: a') ++ b)) with
      (if c <? 128 then (1 + byteLength ((d :: a') ++ b))%Z
       else if c <? 2048 then (2 + byteLength ((d :: a') ++ b))%Z
       else if is_high_surrogate c then
         if is_low_surrogate d then (4 + byteLength (a' ++ b))%Z
         else (3 + byteLength ((d :: a') ++ b))%Z
       else (3 + byteLength ((d :: a') ++ b))%Z).
    change (byteLength (c :: d :: a')) with
      (if c <? 128 then (1 + byteLength (d :: a'))%Z
       else if c <? 2048 then (2 + byteLength (d :: a'))%Z
       else if is_high_surrogate c then
         if is_low_surrogate d then (4 + byteLength a')%Z
         else (3 + byteLength (d :: a'))%Z
       else (3 + byteLength (d :: a'))%Z).
    destruct (c <? 128); [lia|]. destruct (c <? 2048); [lia|].
    destruct (is_high_surrogate c); [|lia].
    destruct (is_low_surrogate d); lia.
Qed.

Section Budget.

Context {L : Libs}.

Implicit Types (env : Env) (w : World) (repo line : jsstring).

(** X15. When the body of the release is kept, the message that is handed
    to [sendNtfy], headers and body together, is within
    [MAX_MESSAGE_BYTES]; what is posted is that message with its links
    rewritten. *)
Theorem message_within_budget env repo release :
  fits repo release = true ->
  (byteLength (message_of repo release) <= MAX_MESSAGE_BYTES)%Z
  /\ message_of repo release
     = headersOf repo release (current release)
       ++ emojify (releaseBodyOf release)
  /\ n_body (release_ntfy env repo release)
     = githubMarkdown (message_of repo release).
Proof.
  intros Hfits. unfold message_of, shown_body. rewrite Hfits.
  split; [|split; [reflexivity|]].
  - unfold fits in Hfits. apply Z.leb_le in Hfits.
    pose proof (byteLength_app_le
                  (headersOf repo release (current release))
                  (emojify (releaseBodyOf release))).
    lia.
  - unfold release_ntfy, shown_body. cbn [n_body]. now rewrite Hfits.
Qed.

End Budget.

(** ** The earlier version of the program *)

Section LegacyFacts.

Context {L : Libs}.

Implicit Types (env : Env) (w : World) (line : jsstring).

Lemma legacy_wanted_beta (b1 b2 : bool) (releases : list Legacy.Release) :
  find (Legacy.wanted b1) releases = find (Legacy.wanted b2) releases.
Proof.
  induction releases as [|r rs IH]; [reflexivity|].
  cbn [find]. rewrite IH. unfold Legacy.wanted, Legacy.beta_of.
  now rewrite !andb_false_r.
Qed.

(** X16. In the earlier version the beta flag of a line decides nothing: a
    release is never left out for being a prerelease, and two lines that
    name the same repository, one with the flag and one without, end the
    same way and leave the same store, outbox and requests. *)
Theorem legacy_beta_flag_has_no_effect
    (get : jsstring -> Legacy.Response) env (l1 l2 : jsstring) w :
  fst (Legacy.parseLine l1) = fst (Legacy.parseLine l2) ->
  Legacy.effects (Legacy.processRepoLine get env l1 w)
  = Legacy.effects (Legacy.processRepoLine get env l2 w).
Proof.
  unfold Legacy.processRepoLine.
  destruct (Legacy.parseLine l1) as [repo b1].
  destruct (Legacy.parseLine l2) as [repo2 b2]. cbn [fst]. intros <-.
  unfold Legacy.fetchReleases. unfold_m.
  destruct (get (releases_url repo)) as [releases | st]; [|reflexivity].
  rewrite (legacy_wanted_beta b1 b2 releases).
  destruct (find (Legacy.wanted b2) releases) as [release|]; [|reflexivity].
  cbn [requested add_log db].
  destruct (present (db w !! Legacy.str_of_N (Legacy.id release)))
    as [lastVersion|]; [|reflexivity].
  destruct (negb (validate lastVersion)
            || negb (validate (tag_name (Legacy.fields release))));
    [reflexivity|].
  destruct (compareVersions lastVersion (tag_name (Legacy.fields release)))
    as [k|]; [|reflexivity].
  destruct (k =? -1)%Z.
  - unfold Legacy.sendNtfy. unfold_m.
    destruct (http_post env _); reflexivity.
  - destruct (k =? 1)%Z; reflexivity.
Qed.


End LegacyFacts.

(** ** Runs of the further properties *)

Lemma occurs_occursb (p s : jsstring) : occurs p s -> occursb p s = true.
Proof.
  intros (pre & post & ->). induction pre as [|c pre IH].
  - cbn [app]. destruct (p ++ post) as [|x s'] eqn:E.
    + destruct p; [reflexivity | discriminate].
    + cbn [occursb]. rewrite <- E.
      replace (startsWith p (p ++ post)) with true; [reflexivity|].
      clear E. symmetry. induction p as [|a p IHp]; [reflexivity|].
      cbn [app startsWith]. now rewrite N.eqb_refl, IHp.
  - cbn [app occursb]. rewrite IH. apply orb_true_r.
Qed.

Lemma plain_compare_refl (v : jsstring) :
  @validate Plain.libs v = true ->
  @compareVersions Plain.libs v v = Some 0%Z.
Proof.
  cbn [validate compareVersions Plain.libs]. intros ->. cbn [andb]. f_equal.
  induction (Plain.fields v) as [|x l IH]; [reflexivity|].
  cbn [Plain.compare_fields]. now rewrite N.ltb_irrefl.
Qed.

Lemma checkReleases_requests_witness :
  read_file Sample.env (REPO_FILE Sample.env) = Some Sample.content
  /\ exit_code (snd (checkReleases (L := Plain.libs) Sample.env Plain.world0))
     = None
  /\ fetched (snd (checkReleases (L := Plain.libs) Sample.env Plain.world0))
     = fetched Plain.world0
       ++ map releases_url
            (named (L := Plain.libs) (repoLines Sample.content)).
Proof.
  assert (H : exit_code (snd (checkReleases (L := Plain.libs) Sample.env
                                 Plain.world0)) = None)
    by (vm_compute; reflexivity).
  split; [reflexivity|]. split; [exact H|].
  apply (checkReleases_requests (L := Plain.libs) Sample.env Sample.content
           Plain.world0 eq_refl H).
Defined.

Lemma checkReleases_notifications_witness :
  read_file Sample.env (REPO_FILE Sample.env) = Some Sample.content
  /\ exists sent,
       outbox (snd (checkReleases (L := Plain.libs) Sample.env
                      (Plain.world_with "v1.0.0")))
       = outbox (Plain.world_with "v1.0.0") ++ sent
       /\ (length sent
           <= length (named (L := Plain.libs) (repoLines Sample.content)))%nat
       /\ Forall (about (L := Plain.libs) Sample.env
                    (named (L := Plain.libs) (repoLines Sample.content))) sent.
Proof.
  split; [reflexivity|].
  apply (checkReleases_notifications (L := Plain.libs) Sample.env
           Sample.content (Plain.world_with "v1.0.0") eq_refl).
Defined.

Lemma checkReleases_store_frame_witness :
  read_file Sample.env (REPO_FILE Sample.env) = Some Sample.content
  /\ (forall k,
        is_Some (db (Plain.world_with "v1.0.0") !! k) ->
        is_Some (db (snd (checkReleases (L := Plain.libs) Sample.env
                            (Plain.world_with "v1.0.0"))) !! k)).
Proof.
  split; [reflexivity|].
  apply (checkReleases_store_frame (L := Plain.libs) Sample.env
           Sample.content (Plain.world_with "v1.0.0") eq_refl).
Defined.

Lemma checkReleases_keeps_normal_witness :
  read_file Sample.env (REPO_FILE Sample.env) = Some Sample.content
  /\ map_Forall (fun _ v => normal v) (db Plain.world0)
  /\ map_Forall (fun _ v => normal v)
       (db (snd (checkReleases (L := Plain.libs) Sample.env Plain.world0))).
Proof.
  assert (H0 : map_Forall (fun _ v => normal v) (db Plain.world0))
    by apply map_Forall_empty.
  split; [reflexivity|]. split; [exact H0|].
  apply (checkReleases_keeps_normal (L := Plain.libs) Sample.env
           Sample.content Plain.world0 eq_refl H0).
Defined.

Lemma repoll_is_silent_witness :
  names (L := Plain.libs) Plain.line Plain.repo false
  /\ offers Sample.env Plain.repo false Sample.release
  /\ (let w1 := snd (processRepoLine (L := Plain.libs) Sample.env Plain.line
                       (Plain.world_with "v1.0.0")) in
      let w2 := snd (processRepoLine (L := Plain.libs) Sample.env Plain.line
                       w1) in
      db w2 = db w1 /\ outbox w2 = outbox w1).
Proof.
  assert (Hn : names (L := Plain.libs) Plain.line Plain.repo false)
    by (split; vm_compute; reflexivity).
  assert (Ho : offers Sample.env Plain.repo false Sample.release)
    by (exists [Sample.release]; split; reflexivity).
  split; [exact Hn|]. split; [exact Ho|].
  apply (repoll_is_silent (L := Plain.libs) Sample.env Plain.line Plain.repo
           false Sample.release (Plain.world_with "v1.0.0") Hn Ho
           plain_compare_refl).
Defined.

Lemma failed_post_is_not_retried_witness :
  let r1 := processRepoLine (L := Plain.libs) Sample.env_down Plain.line
              (Plain.world_with "v1.0.0") in
  http_post Sample.env_down
    (release_ntfy (L := Plain.libs) Sample.env_down Plain.repo Sample.release)
  = Some (AxiosError (Some 503%Z))
  /\ fst r1 = Throw (AxiosError (Some 503%Z))
  /\ db (snd r1) !! Plain.repo = Some (current Sample.release)
  /\ outbox (snd (processRepoLine (L := Plain.libs) Sample.env_down Plain.line
                    (snd r1)))
     = outbox (snd r1).
Proof.
  intros r1. split; [reflexivity|].
  assert (Hn : names (L := Plain.libs) Plain.line Plain.repo false)
    by (split; vm_compute; reflexivity).
  assert (Ho : offers Sample.env_down Plain.repo false Sample.release)
    by (exists [Sample.release]; split; reflexivity).
  destruct (failed_post_is_not_retried (L := Plain.libs) Sample.env_down
              Plain.line Plain.repo false Sample.release (lit "v1.0.0")
              (AxiosError (Some 503%Z)) (Plain.world_with "v1.0.0")
              Hn Ho plain_compare_refl
              ltac:(vm_compute; reflexivity) eq_refl
              ltac:(vm_compute; reflexivity) ltac:(vm_compute; reflexivity)
              ltac:(vm_compute; reflexivity) eq_refl)
    as (H1 & H2 & _ & H4).
  split; [exact H1|]. split; [exact H2 | exact H4].
Defined.

Lemma processRepoLine_fetch_failure_witness :
  let env := Plain.env_with (Failed (Some 500%Z)) in
  names (L := Plain.libs) Plain.line Plain.repo false
  /\ http_get env (releases_url Plain.repo) = Failed (Some 500%Z)
  /\ processRepoLine (L := Plain.libs) env Plain.line Plain.world0
     = (Throw (AxiosError (Some 500%Z)), arrived Plain.repo false Plain.world0).
Proof.
  intros env.
  assert (Hn : names (L := Plain.libs) Plain.line Plain.repo false)
    by (split; vm_compute; reflexivity).
  split; [exact Hn|]. split; [reflexivity|].
  apply (processRepoLine_fetch_failure (L := Plain.libs) env Plain.line
           Plain.repo false (Some 500%Z) Plain.world0 Hn eq_refl).
  discriminate.
Defined.

Lemma processRepoLine_no_release_witness :
  let releases := [Plain.release "v2.0.0" (lit "Soon.") true false] in
  let env := Plain.env_with (Releases releases) in
  names (L := Plain.libs) Plain.line Plain.repo false
  /\ Forall (fun release => draft release = true) releases
  /\ outbox (snd (processRepoLine (L := Plain.libs) env Plain.line
                    (Plain.world_with "v1.0.0"))) = []
  /\ db (snd (processRepoLine (L := Plain.libs) env Plain.line
                (Plain.world_with "v1.0.0")))
     = db (Plain.world_with "v1.0.0").
Proof.
  intros releases env.
  assert (Hn : names (L := Plain.libs) Plain.line Plain.repo false)
    by (split; vm_compute; reflexivity).
  assert (Hd : Forall (fun release => draft release = true) releases)
    by (repeat constructor).
  split; [exact Hn|]. split; [exact Hd|].
  rewrite (processRepoLine_no_release (L := Plain.libs) env Plain.line
             Plain.repo false releases (Plain.world_with "v1.0.0")
             Hn eq_refl Hd).
  split; reflexivity.
Defined.

Lemma githubMarkdown_plain_witness :
  let text := lit "Mail bob@example.org, see http://example.org/a@b" in
  ~ occurs github_prefix text
  /\ mention_free None text = true
  /\ githubMarkdown (L := Plain.libs) text = text.
Proof.
  intros text.
  assert (Hno : ~ occurs github_prefix text).
  { intros H. apply occurs_occursb in H. vm_compute in H. discriminate. }
  split; [exact Hno|]. split; [reflexivity|].
  apply (githubMarkdown_plain (L := Plain.libs) text Hno eq_refl).
Defined.

Lemma rewriteIssues_link_witness :
  Name (lit "acme") /\ Name (lit "widget.js") /\ Digits (lit "42")
  /\ rewriteIssues (issue_url (lit "acme") (lit "widget.js") (lit "pull")
                      (lit "42"))
     = lit "[#42](https://github.com/acme/widget.js/pull/42)".
Proof.
  assert (H1 : Name (lit "acme")) by (split; [discriminate | repeat constructor]).
  assert (H2 : Name (lit "widget.js"))
    by (split; [discriminate | repeat constructor]).
  assert (H3 : Digits (lit "42")) by (split; [discriminate | repeat constructor]).
  split; [exact H1|]. split; [exact H2|]. split; [exact H3|].
  apply (rewriteIssues_link (lit "acme") (lit "widget.js") (lit "pull")
           (lit "42") H1 H2 (or_intror eq_refl) H3).
Defined.

Lemma rewriteMentions_link_witness :
  UserName (lit "bob-smith")
  /\ rewriteMentions (64 :: lit "bob-smith")
     = lit "[@bob-smith](https://github.com/bob-smith)".
Proof.
  assert (H : UserName (lit "bob-smith")).
  { split; [repeat constructor|].
    exists (lit "bob-smit"), 104. split; reflexivity. }
  split; [exact H|]. apply (rewriteMentions_link (lit "bob-smith") H).
Defined.

Lemma message_within_budget_witness :
  fits (L := Plain.libs) Plain.repo Overflow.release = true
  /\ (byteLength (message_of (L := Plain.libs) Plain.repo Overflow.release)
      <= MAX_MESSAGE_BYTES)%Z.
Proof.
  assert (H : fits (L := Plain.libs) Plain.repo Overflow.release = true)
    by (vm_compute; reflexivity).
  split; [exact H|].
  apply (message_within_budget (L := Plain.libs) Overflow.env Plain.repo
           Overflow.release H).
Defined.

Lemma legacy_beta_flag_has_no_effect_witness :
  let get := fun _ : jsstring => Legacy.Releases [Sample.legacy_release] in
  fst (Legacy.parseLine (L := Plain.libs) (lit "acme/widget"))
  = fst (Legacy.parseLine (L := Plain.libs) (lit "acme/widget:beta"))
  /\ Legacy.effects
       (Legacy.processRepoLine (L := Plain.libs) get Sample.env
          (lit "acme/widget") Sample.legacy_world)
     = Legacy.effects
         (Legacy.processRepoLine (L := Plain.libs) get Sample.env
            (lit "acme/widget:beta") Sample.legacy_world).
Proof.
  intros get.
  assert (H : fst (Legacy.parseLine (L := Plain.libs) (lit "acme/widget"))
              = fst (Legacy.parseLine (L := Plain.libs)
                       (lit "acme/widget:beta")))
    by (vm_compute; reflexivity).
  split; [exact H|].
  apply (legacy_beta_flag_has_no_effect (L := Plain.libs) get Sample.env
           (lit "acme/widget") (lit "acme/widget:beta") Sample.legacy_world H).
Defined.



(** * The process and the rejections nobody handles *)

Section RejectionFacts.

Context {L : Libs}.

Implicit Types (env : Env) (w : World) (repo line : jsstring).

Lemma track_unhandled env repo release w :
  unhandled (snd (track env repo release w)) = unhandled w.
Proof.
  destruct (present (db w !! repo)) as [lastVersion|] eqn:Hp.
  2:{ now rewrite (track_first_seen _ _ _ _ Hp). }
  destruct (validate lastVersion) eqn:H1.
  2:{ now rewrite (track_unparsable _ _ _ _ _ Hp (or_introl H1)). }
  destruct (validate (current release)) eqn:H2.
  2:{ now rewrite (track_unparsable _ _ _ _ _ Hp (or_intror H2)). }
  destruct (compareVersions lastVersion (current release)) as [k|] eqn:Hk.
  2:{ unfold track. unfold_m. rewrite Hp. fold (current release).
      now rewrite H1, H2, Hk. }
  rewrite (track_compared _ _ _ _ _ _ Hp H1 H2 Hk).
  destruct (k =? -1)%Z.
  - destruct (announce_world env repo release w) as (w1 & -> & _ & _ & _ & Hu & _).
    exact Hu.
  - now destruct (k =? 1)%Z.
Qed.

(** The only rejection an entry leaves unhandled is that of the posting
    after a 404. *)
Lemma processRepoLine_unhandled env line repo beta w :
  names line repo beta ->
  unhandled (snd (processRepoLine env line w))
  = unhandled w ++ lost_rejection env repo.
Proof.
  intros Hn. pose proof Hn as [Hp Ht]. unfold lost_rejection.
  destruct (http_get env (releases_url repo)) as [releases | st] eqn:Hg.
  - rewrite app_nil_r.
    destruct (latestRelease releases beta) as [release|] eqn:Hs.
    + rewrite (processRepoLine_selected env line repo beta release w Hn)
        by (exists releases; now split).
      now rewrite track_unhandled.
    + unfold processRepoLine. rewrite Hp. unfold present. rewrite Ht.
      unfold fetchReleases. unfold_m. rewrite Hg. unfold_m. now rewrite Hs.
  - unfold processRepoLine. rewrite Hp. unfold present. rewrite Ht.
    unfold fetchReleases. unfold_m. rewrite Hg. unfold_m.
    destruct st as [z|]; cbn [response_status]; cbv beta iota;
      [|now rewrite app_nil_r].
    destruct (z =? 404)%Z; [|now rewrite app_nil_r].
    unfold_m. unfold sendNtfy. unfold_m.
    fold (not_found_ntfy env repo).
    destruct (http_post env (not_found_ntfy env repo));
      [reflexivity | now rewrite app_nil_r].
Qed.

(** The [catch] of the loop handles what the entry throws, not what the
    entry left unhandled. *)
Lemma guarded_unhandled env line w :
  unhandled (snd (guarded env line w))
  = unhandled w ++ match repo_of line with
                   | Some repo => lost_rejection env repo
                   | None => []
                   end.
Proof.
  rewrite guarded_caught. cbn [snd].
  assert (E : unhandled (caught line (processRepoLine env line w))
              = unhandled (snd (processRepoLine env line w)))
    by (now destruct (processRepoLine env line w) as [[[]|e] w1]).
  rewrite E. destruct (repo_of line) as [repo|] eqn:Hr.
  - destruct (repo_of_names _ _ Hr) as [beta Hn].
    exact (processRepoLine_unhandled _ _ _ _ _ Hn).
  - rewrite (processRepoLine_skipped _ _ _ Hr). now rewrite app_nil_r.
Qed.

Lemma forEach_unhandled env lines :
  forall w,
    unhandled (snd (forEach env lines w))
    = unhandled w ++ flat_map (lost_rejection env) (named lines).
Proof.
  induction lines as [|line lines IH]; intros w.
  - cbn. now rewrite app_nil_r.
  - rewrite forEach_snd_cons, IH, guarded_unhandled, named_cons.
    destruct (repo_of line) as [repo|].
    + cbn [flat_map]. now rewrite <- app_assoc.
    + now rewrite app_nil_r.
Qed.

Lemma checkReleases_unhandled env content w :
  read_file env (REPO_FILE env) = Some content ->
  unhandled (snd (checkReleases env w))
  = unhandled w
    ++ flat_map (lost_rejection env) (named (repoLines content)).
Proof.
  intros Hr. rewrite (checkReleases_swept _ _ _ Hr).
  assert (E : unhandled (swept env content w)
              = unhandled w
                ++ flat_map (lost_rejection env) (named (repoLines content)))
    by (unfold swept; now rewrite forEach_unhandled).
  destruct (ms (CHECK_INTERVAL env)); exact E.
Qed.

(** C8, what the code does instead.  The [catch] of the loop handles what
    an entry throws, but the posting [fetchReleases] starts after a 404 is
    not awaited: when the gateway refuses it, the rejection passes the
    [try] of [fetchReleases] and the [catch] of the loop, the entry ends as
    caught and the rejection is still unhandled at the end of the sweep,
    whatever the other entries do.  The runtime ends the process on it,
    with exit code 1: the failure of one entry stops the entries after it
    and the sweeps that were to follow. *)
Theorem unawaited_post_ends_the_process env content line repo beta e w :
  read_file env (REPO_FILE env) = Some content ->
  line ∈ repoLines content ->
  names line repo beta ->
  http_get env (releases_url repo) = Failed (Some 404%Z) ->
  http_post env (not_found_ntfy env repo) = Some e ->
  (forall w0,
     fst (guarded env line w0) = Ok tt
     /\ unhandled (snd (guarded env line w0)) = unhandled w0 ++ [e]
     /\ exit_code (snd (guarded env line w0)) = Some 1%Z)
  /\ e ∈ unhandled (snd (checkReleases env w))
  /\ exit_code (snd (checkReleases env w)) = Some 1%Z.
Proof.
  intros Hr Hin Hn Hg Hpost.
  assert (Hrepo : repo_of line = Some repo).
  { destruct Hn as [Hp Ht]. unfold repo_of, present. rewrite Hp. cbn [fst].
    now rewrite Ht. }
  assert (Hlost : lost_rejection env repo = [e]).
  { unfold lost_rejection. now rewrite Hg, Hpost. }
  assert (Hexit : forall w1, e ∈ unhandled w1 -> exit_code w1 = Some 1%Z).
  { intros w1 H. unfold exit_code. destruct (unhandled w1); [|reflexivity].
    now apply elem_of_nil in H. }
  assert (Hone : forall w0,
             unhandled (snd (guarded env line w0)) = unhandled w0 ++ [e]).
  { intros w0. now rewrite guarded_unhandled, Hrepo, Hlost. }
  assert (Hall : e ∈ unhandled (snd (checkReleases env w))).
  { rewrite (checkReleases_unhandled _ _ _ Hr).
    apply elem_of_app. right. apply list_elem_of_In, in_flat_map.
    exists repo. split.
    - apply list_elem_of_In, list_elem_of_omap. now exists line.
    - rewrite Hlost. now left. }
  split; [|split; [exact Hall | exact (Hexit _ Hall)]].
  intros w0. split; [now rewrite guarded_caught|]. split; [apply Hone|].
  apply Hexit. rewrite Hone. apply elem_of_app. right. now left.
Qed.

End RejectionFacts.

Lemma unawaited_post_ends_the_process_witness :
  let e := AxiosError (Some 503%Z) in
  let env := Strict.env_with "1h" (Failed (Some 404%Z)) (Some e) in
  let line := lit "acme/gadget" in
  read_file env (REPO_FILE env) = Some Sample.content
  /\ line ∈ repoLines Sample.content
  /\ names (L := Strict.libs) line line false
  /\ http_get env (releases_url line) = Failed (Some 404%Z)
  /\ http_post env (not_found_ntfy (L := Strict.libs) env line) = Some e
  /\ e ∈ unhandled (snd (checkReleases (L := Strict.libs) env Plain.world0))
  /\ exit_code (snd (checkReleases (L := Strict.libs) env Plain.world0))
     = Some 1%Z.
Proof.
  intros e env line.
  assert (Hin : line ∈ repoLines Sample.content)
    by (vm_compute; repeat constructor).
  assert (Hn : names (L := Strict.libs) line line false)
    by (split; vm_compute; reflexivity).
  split; [reflexivity|]. split; [exact Hin|]. split; [exact Hn|].
  split; [reflexivity|]. split; [reflexivity|].
  apply (unawaited_post_ends_the_process (L := Strict.libs) env Sample.content
           line line false e Plain.world0 eq_refl Hin Hn eq_refl eq_refl).
Defined.

Lemma checkReleases_next_sweep_witness :
  let env := Strict.env_with "" (Releases [Sample.release]) None in
  read_file env (REPO_FILE env) = Some Sample.content
  /\ exit_code (swept (L := Strict.libs) env Sample.content Plain.world0)
     = None
  /\ checkReleases (L := Strict.libs) env Plain.world0
     = (Throw MsError, swept (L := Strict.libs) env Sample.content Plain.world0)
  /\ timers (swept (L := Strict.libs) env Sample.content Plain.world0) = [].
Proof.
  intros env.
  assert (H : exit_code (swept (L := Strict.libs) env Sample.content
                           Plain.world0) = None)
    by (vm_compute; reflexivity).
  split; [reflexivity|]. split; [exact H|].
  destruct (checkReleases_next_sweep (L := Strict.libs) env Sample.content
              Plain.world0 eq_refl H) as (E & _ & Ht).
  split; [exact E | exact Ht].
Defined.

(** A release seen under an id the store does not have: the earlier version
    stores its tag under the id and posts nothing. *)
Example legacy_first_sight_run :
  let get := fun _ : jsstring => Legacy.Releases [Sample.legacy_release] in
  let w' := snd (Legacy.processRepoLine (L := Plain.libs) get Sample.env
                   (lit "acme/widget") Plain.world0) in
  db w' !! lit "7" = Some (lit "v1.1.0") /\ outbox w' = [].
Proof. vm_compute. split; reflexivity. Qed.
